(** * jaeger-toolkit: sampling, batching, attribute rewriting and
      self-observability, embedded from the Go sources

    - [model]          pkg/model: Span, TraceID, KeyValue
    - [observability]  pkg/observability: Metrics, Snapshot, determineStatus
    - [sampling], [batch], [attributes]
                       pkg/pipeline/processor: sampling.go, batch.go,
                       attributes.go

    Go's [int], [int64] and [time.Duration] are 64-bit two's complement
    integers, modelled as [Z] with the wrap-around written out; [uint64] is a
    [Z] in [0, 2^64); [float64] is IEEE 754 binary64, modelled by the
    primitive type [float]. *)

From Stdlib Require Import ZArith Floats Lia Bool Sorted.
From stdpp Require Import base list strings.

#[local] Set Warnings "-inexact-float".

Local Open Scope Z_scope.

(** ** Numeric conversions of the Go language *)

Module GoNum.

Definition wrap64 (z : Z) : Z := (z + 2 ^ 63) mod 2 ^ 64 - 2 ^ 63.

Definition int_add (a b : Z) : Z := wrap64 (a + b).

Definition uint64_add (a b : Z) : Z := (a + b) mod 2 ^ 64.

Definition maxUint64 : Z := 2 ^ 64 - 1.

(** [float64(n)] for an integer [n]: round to nearest, ties to even. *)
Definition float64_of_Z (z : Z) : float :=
  SF2Prim (binary_normalize prec emax z 0 false).

(** The integer part of a float (rounding toward zero); [None] for the
    infinities and NaN. *)
Definition trunc (x : float) : option Z :=
  match Prim2SF x with
  | S754_zero _ => Some 0
  | S754_finite s m e =>
      let mag := if 0 <=? e then Z.shiftl (Z.pos m) e
                 else Z.shiftr (Z.pos m) (- e) in
      Some (if s then - mag else mag)
  | S754_infinity _ => None
  | S754_nan => None
  end.

(** The language fixes a float-to-integer conversion only when the truncated
    value fits the target type; otherwise "the conversion succeeds but the
    result value is implementation-dependent".  The two 64-bit targets of
    the gc compiler are modelled. *)
Inductive arch := amd64 | arm64.

(** amd64, CVTTSD2SQ: the truncated value when it fits int64, else the
    "integer indefinite" value -2^63. *)
Definition cvttsd2sq (x : float) : Z :=
  match trunc x with
  | Some z => if (- 2 ^ 63 <=? z) && (z <? 2 ^ 63) then z else - 2 ^ 63
  | None => - 2 ^ 63
  end.

Definition two63 : float := 0x1p63%float.

(** amd64, the compiler's lowering of [uint64(x)]:
      if x < 2^63 { uint64(cvt(x)) } else { uint64(cvt(x - 2^63) | -2^63) }. *)
Definition uint64_of_float_amd64 (x : float) : Z :=
  if PrimFloat.ltb x two63 then cvttsd2sq x mod 2 ^ 64
  else Z.lor (cvttsd2sq (PrimFloat.sub x two63)) (- 2 ^ 63) mod 2 ^ 64.

(** arm64, FCVTZU: saturating, NaN gives 0. *)
Definition uint64_of_float_arm64 (x : float) : Z :=
  match trunc x with
  | Some z => if z <? 0 then 0 else if maxUint64 <? z then maxUint64 else z
  | None =>
      match Prim2SF x with
      | S754_infinity false => maxUint64
      | _ => 0
      end
  end.

Definition uint64_of_float (a : arch) (x : float) : Z :=
  match trunc x with
  | Some z =>
      if (0 <=? z) && (z <=? maxUint64) then z
      else match a with
           | amd64 => uint64_of_float_amd64 x
           | arm64 => uint64_of_float_arm64 x
           end
  | None =>
      match a with
      | amd64 => uint64_of_float_amd64 x
      | arm64 => uint64_of_float_arm64 x
      end
  end.

(** [int(x)] for a float that fits: used only on in-range values. *)
Definition int_of_float (x : float) : Z := cvttsd2sq x.

End GoNum.

(** ** pkg/model *)

Module model.

Definition ValueType := string.

Definition StringType : ValueType := "string".
Definition BoolType : ValueType := "bool".
Definition Int64Type : ValueType := "int64".
Definition Float64Type : ValueType := "float64".
Definition BinaryType : ValueType := "binary".

Record KeyValue := mkKeyValue {
  Key : string;
  VType : ValueType;
  VStr : string;
  VInt64 : Z;
  VFloat64 : float;
  VBool : bool;
  VBinary : list Z
}.

Record TraceID := mkTraceID { High : Z; Low : Z }.

Definition RefType := string.
Definition ChildOf : RefType := "CHILD_OF".
Definition FollowsFrom : RefType := "FOLLOWS_FROM".

Record Reference := mkReference {
  RefKind : RefType;
  RefTraceID : TraceID;
  RefSpanID : Z
}.

Record Log := mkLog { Timestamp : Z; Fields : list KeyValue }.

Record Process := mkProcess {
  ServiceName : string;
  ProcessTags : list KeyValue
}.

(** [Span]; its field [TraceID] is [Trace] here, the type keeping the name.
    Times are nanoseconds, the [*Process] pointer an option. *)
Record Span := mkSpan {
  Trace : TraceID;
  SpanID : Z;
  ParentSpanID : Z;
  OperationName : string;
  References : list Reference;
  Flags : Z;
  StartTime : Z;
  Duration : Z;
  Tags : list KeyValue;
  Logs : list Log;
  SpanProcess : option Process;
  ProcessID : string;
  Warnings : list string
}.

Definition set_Tags (span : Span) (tags : list KeyValue) : Span :=
  {| Trace := Trace span; SpanID := SpanID span;
     ParentSpanID := ParentSpanID span; OperationName := OperationName span;
     References := References span; Flags := Flags span;
     StartTime := StartTime span; Duration := Duration span;
     Tags := tags;
     Logs := Logs span; SpanProcess := SpanProcess span;
     ProcessID := ProcessID span; Warnings := Warnings span |}.

Definition TraceID_IsValid (t : TraceID) : bool :=
  negb (High t =? 0) || negb (Low t =? 0).

End model.

(** ** pkg/pipeline/processor/sampling.go *)

Module sampling.
Import GoNum model.

(** [name] and the unused [rng] carry no behaviour and are left out; the
    mutex only serialises [recordSample] and [getAdaptiveRate], each of which
    is one atomic step here. *)
Record SamplingProcessor := mkSamplingProcessor {
  baseSampleRate : float;
  alwaysSampleErrors : bool;
  slowThreshold : Z;
  recentErrors : Z;
  recentTotal : Z;
  adaptiveRate : float;
  adaptiveWindow : Z
}.

Record SamplingConfig := mkSamplingConfig {
  BaseSampleRate : float;
  AlwaysSampleErrors : bool;
  SlowThreshold : Z;
  AdaptiveWindow : Z
}.

Definition Second : Z := 1000000000.
Definition Millisecond : Z := 1000000.

Definition DefaultSamplingConfig : SamplingConfig :=
  {| BaseSampleRate := 0.1%float;
     AlwaysSampleErrors := true;
     SlowThreshold := 1 * Second;
     AdaptiveWindow := 1000 |}.

Definition NewSamplingProcessor (config : SamplingConfig) : SamplingProcessor :=
  {| baseSampleRate := BaseSampleRate config;
     alwaysSampleErrors := AlwaysSampleErrors config;
     slowThreshold := SlowThreshold config;
     recentErrors := 0;
     recentTotal := 0;
     adaptiveRate := BaseSampleRate config;
     adaptiveWindow := AdaptiveWindow config |}.

(** The package's own [min] on float64. *)
Definition min (a b : float) : float :=
  if PrimFloat.ltb a b then a else b.

Definition isErrorTag (tag : KeyValue) : bool :=
  (String.eqb (Key tag) "error" && String.eqb (VType tag) BoolType && VBool tag)
  || (String.eqb (Key tag) "http.status_code"
      && String.eqb (VType tag) Int64Type && (500 <=? VInt64 tag)).

Fixpoint isErrorTags (tags : list KeyValue) : bool :=
  match tags with
  | [] => false
  | tag :: rest => if isErrorTag tag then true else isErrorTags rest
  end.

Definition isError (span : Span) : bool := isErrorTags (Tags span).

Definition recordSample (isErr : bool) (p : SamplingProcessor)
  : SamplingProcessor :=
  let total := int_add (recentTotal p) 1 in
  let errors := if isErr then int_add (recentErrors p) 1 else recentErrors p in
  if adaptiveWindow p <=? total then
    let errorRate := PrimFloat.div (float64_of_Z errors) (float64_of_Z total) in
    let rate :=
      if PrimFloat.ltb 0.05%float errorRate then
        min 1%float (PrimFloat.mul (baseSampleRate p) 2%float)
      else if PrimFloat.ltb 0.01%float errorRate then
        min 1%float (PrimFloat.mul (baseSampleRate p) 1.5%float)
      else baseSampleRate p in
    {| baseSampleRate := baseSampleRate p;
       alwaysSampleErrors := alwaysSampleErrors p;
       slowThreshold := slowThreshold p;
       recentErrors := 0;
       recentTotal := 0;
       adaptiveRate := rate;
       adaptiveWindow := adaptiveWindow p |}
  else
    {| baseSampleRate := baseSampleRate p;
       alwaysSampleErrors := alwaysSampleErrors p;
       slowThreshold := slowThreshold p;
       recentErrors := errors;
       recentTotal := total;
       adaptiveRate := adaptiveRate p;
       adaptiveWindow := adaptiveWindow p |}.

Definition getAdaptiveRate (p : SamplingProcessor) : float := adaptiveRate p.

(** [float64(^uint64(0))]: a constant conversion, rounded to binary64. *)
Definition maxUint64_float : float := float64_of_Z maxUint64.

Definition threshold (a : arch) (rate : float) : Z :=
  uint64_of_float a (PrimFloat.mul maxUint64_float rate).

Definition deterministicSample (a : arch) (traceID : TraceID) (rate : float)
  : bool :=
  Low traceID <=? threshold a rate.

(** The decision together with the processor after its [recordSample]. *)
Definition shouldSample (a : arch) (span : Span) (p : SamplingProcessor)
  : bool * SamplingProcessor :=
  if alwaysSampleErrors p && isError span then (true, recordSample true p)
  else if slowThreshold p <=? Duration span then (true, recordSample false p)
  else
    let rate := getAdaptiveRate p in
    let decision := deterministicSample a (Trace span) rate in
    (decision, recordSample (isError span) p).

(** [n] consecutive calls of [recordSample] with the same flag. *)
Fixpoint recordSamples (n : nat) (isErr : bool) (p : SamplingProcessor)
  : SamplingProcessor :=
  match n with
  | O => p
  | S n' => recordSamples n' isErr (recordSample isErr p)
  end.

(** [Process]: the spans forwarded for a closed input stream, with no
    cancellation; the send on [out] keeps the arrival order. *)
Fixpoint Process (a : arch) (input : list Span) (p : SamplingProcessor)
  : list Span * SamplingProcessor :=
  match input with
  | [] => ([], p)
  | span :: rest =>
      let '(keep, p1) := shouldSample a span p in
      let '(out, p2) := Process a rest p1 in
      (if keep then span :: out else out, p2)
  end.

End sampling.

(** ** pkg/pipeline/processor/batch.go *)

Module batch.
Import GoNum model.

Record BatchProcessor := mkBatchProcessor {
  timeout : Z;
  batchSize : Z;
  sendBatchSize : Z
}.

Definition DefaultBatchConfig : BatchProcessor :=
  {| timeout := 1000000000; batchSize := 8192; sendBatchSize := 1024 |}.

(** The run-time system under the program, on a 64-bit target.  [maxAlloc]
    is the largest allocation it accepts (runtime/malloc.go; 2^48 bytes on
    linux/amd64 and linux/arm64), [hchanSize] the size of a channel header
    (runtime/chan.go; it differs between releases), [memory] the number of
    bytes the operating system lets the process have for the two buffers
    whose size the configuration chooses. *)
Record runtime := mkRuntime {
  maxAlloc : Z;
  hchanSize : Z;
  memory : Z
}.

(** The size of a [*model.Span]. *)
Definition PtrSize : Z := 8.

(** [make(chan *model.Span, size)], runtime.makechan:
      mem, overflow := math.MulUintptr(elem.Size_, uintptr(size))
      if overflow || mem > maxAlloc-hchanSize || size < 0 { panic(..) }
    [None] is the panic "makechan: size out of range"; otherwise the number
    of bytes allocated, header and buffer. *)
Definition makechan (rt : runtime) (size : Z) : option Z :=
  let mem := PtrSize * size in
  if (size <? 0) || (2 ^ 64 <=? mem) || (maxAlloc rt - hchanSize rt <? mem)
  then None
  else Some (hchanSize rt + mem).

(** [make([]*model.Span, 0, cap)], runtime.makeslice:
      mem, overflow := math.MulUintptr(et.Size_, uintptr(cap))
      if overflow || mem > maxAlloc || len < 0 || len > cap { panic(..) }
    [None] is the panic "makeslice: cap out of range". *)
Definition makeslice (rt : runtime) (cap : Z) : option Z :=
  let mem := PtrSize * cap in
  if (cap <? 0) || (2 ^ 64 <=? mem) || (maxAlloc rt <? mem)
  then None
  else Some mem.

(** One iteration of the goroutine's [select].  The scheduler's choice is the
    event; [cut] is the choice made inside [flush]: [None] when every send on
    [out] goes through, [Some k] when [ctx.Done()] is taken after [k] sends. *)
Inductive event :=
  | Recv (span : Span) (cut : option nat)
  | InClosed (cut : option nat)
  | Tick (cut : option nat)
  | Done.

(** [sent] logs the sends on [out], one entry per call of [flush];
    [returned] says that the goroutine has returned (and closed [out]). *)
Record state := mkState {
  batch : list Span;
  sent : list (list Span);
  returned : bool
}.

Definition init : state := {| batch := []; sent := []; returned := false |}.

(** The closure [flush]: on [ctx.Done()] it returns before [batch = batch[:0]]. *)
Definition flush (cut : option nat) (st : state) : state :=
  match cut with
  | Some k =>
      if (k <? length (batch st))%nat then
        {| batch := batch st;
           sent := sent st ++ [take k (batch st)];
           returned := returned st |}
      else
        {| batch := []; sent := sent st ++ [batch st]; returned := returned st |}
  | None =>
      {| batch := []; sent := sent st ++ [batch st]; returned := returned st |}
  end.

Definition stop (st : state) : state :=
  {| batch := batch st; sent := sent st; returned := true |}.

Definition step (p : BatchProcessor) (st : state) (e : event) : state :=
  if returned st then st
  else
    match e with
    | InClosed cut =>
        stop (if (0 <? length (batch st))%nat then flush cut st else st)
    | Recv span cut =>
        let st1 := {| batch := batch st ++ [span];
                      sent := sent st;
                      returned := returned st |} in
        if sendBatchSize p <=? Z.of_nat (length (batch st1))
        then flush cut st1 else st1
    | Tick cut =>
        if (0 <? length (batch st))%nat then flush cut st else st
    | Done => stop st
    end.

(** [Process].  [None] is a run that stops before the loop: the panic of
    [make(chan, batchSize)] or of [make([]*Span, 0, sendBatchSize)] on a size
    that is negative or too large, the fatal error of the run-time system
    when the two buffers do not fit in memory, and the panic of
    [time.NewTicker(timeout)] on a non-positive period. *)
Definition Process (rt : runtime) (p : BatchProcessor) (events : list event)
  : option state :=
  match makechan rt (batchSize p), makeslice rt (sendBatchSize p) with
  | Some chanBytes, Some sliceBytes =>
      if (memory rt <? chanBytes + sliceBytes) || (timeout p <=? 0) then None
      else Some (fold_left (step p) events init)
  | _, _ => None
  end.

(** The configurations on which [Process] reaches its loop: the sizes pass
    the checks of [makechan] and [makeslice], the buffers fit in memory and
    the period is positive. *)
Definition starts (rt : runtime) (p : BatchProcessor) : Prop :=
  (0 <= batchSize p
   /\ PtrSize * batchSize p < 2 ^ 64
   /\ PtrSize * batchSize p <= maxAlloc rt - hchanSize rt)
  /\ (0 <= sendBatchSize p
      /\ PtrSize * sendBatchSize p < 2 ^ 64
      /\ PtrSize * sendBatchSize p <= maxAlloc rt)
  /\ hchanSize rt + PtrSize * batchSize p + PtrSize * sendBatchSize p
     <= memory rt
  /\ 0 < timeout p.

(** What the consumer of [out] reads. *)
Definition output (st : state) : list Span := concat (sent st).

(** A run without cancellation: the input spans, then closure. *)
Definition feed (spans : list Span) : list event :=
  map (fun s => Recv s None) spans ++ [InClosed None].

End batch.

(** ** pkg/pipeline/processor/attributes.go *)

Module attributes.
Import model.

Definition ActionType := string.
Definition Insert : ActionType := "insert".
Definition Update : ActionType := "update".
Definition Upsert : ActionType := "upsert".
Definition Delete : ActionType := "delete".

Record AttributeAction := mkAttributeAction {
  Key : string;
  Value : string;
  Action : ActionType
}.

(** [existingIdx]: the first index whose key matches, [None] for -1. *)
Fixpoint findExisting (key : string) (tags : list KeyValue) : option nat :=
  match tags with
  | [] => None
  | tag :: rest =>
      if String.eqb (model.Key tag) key then Some O
      else option_map S (findExisting key rest)
  end.

(** [model.KeyValue{Key: .., VType: model.StringType, VStr: ..}]: the fields
    not named take their zero values. *)
Definition stringTag (action : AttributeAction) : KeyValue :=
  {| model.Key := Key action;
     VType := StringType;
     VStr := Value action;
     VInt64 := 0;
     VFloat64 := 0%float;
     VBool := false;
     VBinary := [] |}.

Definition applyActionTags (tags : list KeyValue) (action : AttributeAction)
  : list KeyValue :=
  let existingIdx := findExisting (Key action) tags in
  if String.eqb (Action action) Insert then
    match existingIdx with
    | None => tags ++ [stringTag action]
    | Some _ => tags
    end
  else if String.eqb (Action action) Update then
    match existingIdx with
    | Some i => <[i := stringTag action]> tags
    | None => tags
    end
  else if String.eqb (Action action) Upsert then
    match existingIdx with
    | Some i => <[i := stringTag action]> tags
    | None => tags ++ [stringTag action]
    end
  else if String.eqb (Action action) Delete then
    match existingIdx with
    | Some i => take i tags ++ drop (S i) tags
    | None => tags
    end
  else tags.

Definition applyAction (span : Span) (action : AttributeAction) : Span :=
  set_Tags span (applyActionTags (Tags span) action).

(** The loop of [Process] over the configured actions, in order. *)
Definition applyActions (actions : list AttributeAction) (span : Span) : Span :=
  fold_left applyAction actions span.

End attributes.

(** ** pkg/observability *)

Module observability.
Import GoNum.

(** The five atomic counters are uint64; the latency buffer is a slice of
    [time.Duration] of which the list holds the first [len] elements. *)
Record Metrics := mkMetrics {
  spansReceived : Z;
  spansProcessed : Z;
  spansDropped : Z;
  spansExported : Z;
  exportErrors : Z;
  processingTimes : list Z;
  maxSamples : Z
}.

Definition NewMetrics : Metrics :=
  {| spansReceived := 0; spansProcessed := 0; spansDropped := 0;
     spansExported := 0; exportErrors := 0;
     processingTimes := []; maxSamples := 1000 |}.

Definition set_processingTimes (m : Metrics) (l : list Z) : Metrics :=
  {| spansReceived := spansReceived m; spansProcessed := spansProcessed m;
     spansDropped := spansDropped m; spansExported := spansExported m;
     exportErrors := exportErrors m;
     processingTimes := l; maxSamples := maxSamples m |}.

Definition RecordSpanReceived (m : Metrics) : Metrics :=
  {| spansReceived := uint64_add (spansReceived m) 1;
     spansProcessed := spansProcessed m;
     spansDropped := spansDropped m; spansExported := spansExported m;
     exportErrors := exportErrors m;
     processingTimes := processingTimes m; maxSamples := maxSamples m |}.

Definition RecordSpanDropped (m : Metrics) : Metrics :=
  {| spansReceived := spansReceived m; spansProcessed := spansProcessed m;
     spansDropped := uint64_add (spansDropped m) 1;
     spansExported := spansExported m;
     exportErrors := exportErrors m;
     processingTimes := processingTimes m; maxSamples := maxSamples m |}.

(** The builtin [copy(dst, src)]: the first [min(len(dst), len(src))]
    elements of [dst] are overwritten, also when the two overlap. *)
Definition copy (dst src : list Z) : list Z :=
  take (length dst) src ++ drop (length src) dst.

(** [RecordProcessingTime]; [None] is the panic of the slice expression
    [m.processingTimes[:m.maxSamples-1]] on a negative bound. *)
Definition RecordProcessingTime (d : Z) (m : Metrics) : option Metrics :=
  if maxSamples m <=? Z.of_nat (length (processingTimes m)) then
    let rotated := copy (processingTimes m) (drop 1 (processingTimes m)) in
    if maxSamples m - 1 <? 0 then None
    else
      let kept := take (Z.to_nat (maxSamples m - 1)) rotated in
      Some (set_processingTimes m (kept ++ [d]))
  else Some (set_processingTimes m (processingTimes m ++ [d])).

Fixpoint RecordProcessingTimes (ds : list Z) (m : Metrics) : option Metrics :=
  match ds with
  | [] => Some m
  | d :: rest =>
      match RecordProcessingTime d m with
      | Some m' => RecordProcessingTimes rest m'
      | None => None
      end
  end.

Record MetricsSnapshot := mkMetricsSnapshot {
  SpansReceived : Z;
  SpansProcessed : Z;
  SpansDropped : Z;
  SpansExported : Z;
  ExportErrors : Z;
  LatencyP50 : Z;
  LatencyP95 : Z;
  LatencyP99 : Z
}.

(** The backing arrays [Snapshot] touches: the one behind
    [m.processingTimes], and the one that [make] allocates for [sorted].
    A slice is named by its array; every element write says which array it
    goes to. *)
Inductive array := live | fresh.

Definition memory := array -> list Z.

Definition array_eqb (a b : array) : bool :=
  match a, b with
  | live, live | fresh, fresh => true
  | _, _ => false
  end.

Definition write (mem : memory) (a : array) (l : list Z) : memory :=
  fun b => if array_eqb a b then l else mem b.

(** [if sorted[i] > sorted[j] { sorted[i], sorted[j] = sorted[j], sorted[i] }] *)
Definition swap_if_greater (sorted : array) (i j : nat) (mem : memory)
  : memory :=
  match mem sorted !! i, mem sorted !! j with
  | Some x, Some y =>
      if y <? x then write mem sorted (<[j := x]> (<[i := y]> (mem sorted)))
      else mem
  | _, _ => mem
  end.

(** [for j := ..; j < len(sorted); j++], from the current [j]. *)
Fixpoint inner_loop (fuel : nat) (sorted : array) (i j : nat) (mem : memory)
  : memory :=
  match fuel with
  | O => mem
  | S fuel' =>
      if (j <? length (mem sorted))%nat
      then inner_loop fuel' sorted i (S j) (swap_if_greater sorted i j mem)
      else mem
  end.

(** [for i := ..; i < len(sorted); i++], from the current [i]. *)
Fixpoint outer_loop (fuel : nat) (sorted : array) (i : nat) (mem : memory)
  : memory :=
  match fuel with
  | O => mem
  | S fuel' =>
      if (i <? length (mem sorted))%nat
      then outer_loop fuel' sorted (S i)
             (inner_loop (length (mem sorted)) sorted i (S i) mem)
      else mem
  end.

Definition simple_sort (sorted : array) (mem : memory) : memory :=
  outer_loop (length (mem sorted)) sorted 0 mem.

(** [s[i]] with Go's bounds check. *)
Definition index (s : list Z) (i : Z) : option Z :=
  if i <? 0 then None else s !! Z.to_nat i.

Definition p95_index (len : Z) : Z :=
  int_of_float (PrimFloat.mul (float64_of_Z len) 0.95%float).

Definition p99_index (len : Z) : Z :=
  int_of_float (PrimFloat.mul (float64_of_Z len) 0.99%float).

(** [Snapshot], under the read lock.  It returns the snapshot and the
    metrics with the buffer as the call leaves it.  [None] is an index
    panic. *)
Definition Snapshot (m : Metrics) : option (MetricsSnapshot * Metrics) :=
  let counters p50 p95 p99 :=
    {| SpansReceived := spansReceived m; SpansProcessed := spansProcessed m;
       SpansDropped := spansDropped m; SpansExported := spansExported m;
       ExportErrors := exportErrors m;
       LatencyP50 := p50; LatencyP95 := p95; LatencyP99 := p99 |} in
  let mem0 : memory :=
    fun a => match a with live => processingTimes m | fresh => [] end in
  if (0 <? length (mem0 live))%nat then
    let len := Z.of_nat (length (mem0 live)) in
    let mem1 := write mem0 fresh (replicate (length (mem0 live)) 0) in
    let mem2 := write mem1 fresh (copy (mem1 fresh) (mem1 live)) in
    let mem3 := simple_sort fresh mem2 in
    let sorted := mem3 fresh in
    match index sorted (len / 2),
          index sorted (p95_index len),
          index sorted (p99_index len) with
    | Some p50, Some p95, Some p99 =>
        Some (counters p50 p95 p99, set_processingTimes m (mem3 live))
    | _, _, _ => None
    end
  else Some (counters 0 0 0, set_processingTimes m (mem0 live)).

Definition DropRate (s : MetricsSnapshot) : float :=
  if SpansReceived s =? 0 then 0%float
  else PrimFloat.mul
         (PrimFloat.div (float64_of_Z (SpansDropped s))
                        (float64_of_Z (SpansReceived s)))
         100%float.

Definition ErrorRate (s : MetricsSnapshot) : float :=
  if SpansExported s =? 0 then 0%float
  else PrimFloat.mul
         (PrimFloat.div (float64_of_Z (ExportErrors s))
                        (float64_of_Z (SpansExported s)))
         100%float.

Inductive HealthStatus :=
  | HealthStatusHealthy
  | HealthStatusDegraded
  | HealthStatusUnhealthy.

(** The thresholds of [HealthCheck]; the server fields play no part in
    [determineStatus]. *)
Record HealthCheck := mkHealthCheck {
  dropRateWarning : float;
  dropRateCritical : float;
  errorRateWarning : float;
  errorRateCritical : float
}.

Definition DefaultHealthCheckConfig : HealthCheck :=
  {| dropRateWarning := 1%float;
     dropRateCritical := 5%float;
     errorRateWarning := 2%float;
     errorRateCritical := 10%float |}.

(** Go's [a >= b] on float64. *)
Definition geb (a b : float) : bool := PrimFloat.leb b a.

Definition determineStatus (h : HealthCheck) (snapshot : MetricsSnapshot)
  : HealthStatus :=
  let dropRate := DropRate snapshot in
  let errorRate := ErrorRate snapshot in
  if geb dropRate (dropRateCritical h) || geb errorRate (errorRateCritical h)
  then HealthStatusUnhealthy
  else if geb dropRate (dropRateWarning h) || geb errorRate (errorRateWarning h)
  then HealthStatusDegraded
  else HealthStatusHealthy.

End observability.

(** * Notions of the statements, and sample inputs *)

Section SamplingNotions.
Import GoNum model sampling.

Definition errorTagCondition (tag : KeyValue) : Prop :=
  (Key tag = "error" /\ VType tag = BoolType /\ VBool tag = true)
  \/ (Key tag = "http.status_code" /\ VType tag = Int64Type
      /\ 500 <= VInt64 tag).

Definition errorTrueTag (tag : KeyValue) : Prop :=
  Key tag = "error" /\ VType tag = BoolType /\ VBool tag = true.

Definition span_a : Span :=
  {| Trace := {| High := 1; Low := 2 |}; SpanID := 123;
     ParentSpanID := 0; OperationName := "GET /";
     References := []; Flags := 0; StartTime := 0;
     Duration := 50 * Millisecond; Tags := [];
     Logs := []; SpanProcess := None; ProcessID := ""; Warnings := [] |}.

Definition span_b : Span :=
  {| Trace := {| High := 1; Low := 2 |}; SpanID := 456;
     ParentSpanID := 123; OperationName := "SELECT";
     References := []; Flags := 0; StartTime := 0;
     Duration := 10 * Millisecond; Tags := [];
     Logs := []; SpanProcess := None; ProcessID := ""; Warnings := [] |}.

Definition zeroRateProcessor : SamplingProcessor :=
  NewSamplingProcessor
    {| BaseSampleRate := 0%float; AlwaysSampleErrors := true;
       SlowThreshold := 1 * Second; AdaptiveWindow := 1000 |}.

Definition errorSpan : Span :=
  {| Trace := {| High := 1; Low := 2 |}; SpanID := 123;
     ParentSpanID := 0; OperationName := "op";
     References := []; Flags := 0; StartTime := 0;
     Duration := 50 * Millisecond;
     Tags := [ {| Key := "error"; VType := BoolType; VStr := "";
                  VInt64 := 0; VFloat64 := 0%float; VBool := true;
                  VBinary := [] |} ];
     Logs := []; SpanProcess := None; ProcessID := ""; Warnings := [] |}.

Definition zeroLowSpan : Span :=
  {| Trace := {| High := 1; Low := 0 |}; SpanID := 7;
     ParentSpanID := 0; OperationName := "op";
     References := []; Flags := 0; StartTime := 0;
     Duration := 10 * Millisecond; Tags := [];
     Logs := []; SpanProcess := None; ProcessID := ""; Warnings := [] |}.

Definition fullRateProcessor : SamplingProcessor :=
  NewSamplingProcessor
    {| BaseSampleRate := 1%float; AlwaysSampleErrors := false;
       SlowThreshold := 1 * Second; AdaptiveWindow := 1000 |}.

Definition maxLowSpan : Span :=
  {| Trace := {| High := 1; Low := maxUint64 |}; SpanID := 9;
     ParentSpanID := 0; OperationName := "op";
     References := []; Flags := 0; StartTime := 0;
     Duration := 10 * Millisecond; Tags := [];
     Logs := []; SpanProcess := None; ProcessID := ""; Warnings := [] |}.

End SamplingNotions.

Section ObservabilityNotions.
Import GoNum observability.

Definition critical (h : HealthCheck) (s : MetricsSnapshot) : Prop :=
  geb (DropRate s) (dropRateCritical h) = true
  \/ geb (ErrorRate s) (errorRateCritical h) = true.

Definition warning (h : HealthCheck) (s : MetricsSnapshot) : Prop :=
  geb (DropRate s) (dropRateWarning h) = true
  \/ geb (ErrorRate s) (errorRateWarning h) = true.

Definition dropSnapshot (received dropped : Z) : MetricsSnapshot :=
  {| SpansReceived := received; SpansProcessed := 0; SpansDropped := dropped;
     SpansExported := 0; ExportErrors := 0;
     LatencyP50 := 0; LatencyP95 := 0; LatencyP99 := 0 |}.

(** An empty buffer of capacity [c], as [NewMetrics] makes it for 1000. *)
Definition emptyMetrics (c : Z) : Metrics :=
  {| spansReceived := 0; spansProcessed := 0; spansDropped := 0;
     spansExported := 0; exportErrors := 0;
     processingTimes := []; maxSamples := c |}.

(** What one run of the inner loop does to the element at [i] and to the
    elements after it: the smaller one stays at [i]. *)
Fixpoint sweep (x : Z) (todo : list Z) : Z * list Z :=
  match todo with
  | [] => (x, [])
  | y :: t =>
      if y <? x then let '(m, t') := sweep y t in (m, x :: t')
      else let '(m, t') := sweep x t in (m, y :: t')
  end.

Definition snapshotOf (m : Metrics) (p50 p95 p99 : Z) : MetricsSnapshot :=
  {| SpansReceived := spansReceived m; SpansProcessed := spansProcessed m;
     SpansDropped := spansDropped m; SpansExported := spansExported m;
     ExportErrors := exportErrors m;
     LatencyP50 := p50; LatencyP95 := p95; LatencyP99 := p99 |}.

End ObservabilityNotions.

Section BatchNotions.
Import model batch.

Definition recvs (spans : list Span) : list event :=
  map (fun s => Recv s None) spans.

(** The spans an event sequence delivers on [in]. *)
Fixpoint received (events : list event) : list Span :=
  match events with
  | [] => []
  | Recv s _ :: rest => s :: received rest
  | _ :: rest => received rest
  end.

(** Events of a run in which the context is not cancelled and the input is
    still open. *)
Definition quiet (e : event) : bool :=
  match e with
  | Recv _ None | Tick None => true
  | _ => false
  end.

(** A 64-bit Linux machine: allocations up to 2^48 bytes, a channel header
    of 104 bytes, 16 GiB of memory. *)
Definition linux64 : runtime :=
  {| maxAlloc := 2 ^ 48; hchanSize := 104; memory := 2 ^ 34 |}.

End BatchNotions.

Section AttributeNotions.
Import model attributes.

Definition writes (action : AttributeAction) : Prop :=
  Action action = Insert \/ Action action = Update \/ Action action = Upsert.

Definition statusTag : KeyValue :=
  {| model.Key := "http.status_code"; VType := Int64Type; VStr := "";
     VInt64 := 200; VFloat64 := 0%float; VBool := false; VBinary := [] |}.

Definition overwriteStatus : AttributeAction :=
  {| Key := "http.status_code"; Value := "ok"; Action := Upsert |}.

End AttributeNotions.

(** * Further notions and sample inputs *)

Section MoreAttributeNotions.
Import model attributes.

(** The tags whose key is not [key], in order. *)
Definition otherKeys (key : string) (tags : list KeyValue) : list KeyValue :=
  filter (fun tag => model.Key tag <> key) tags.

Definition plainTag (key value : string) : KeyValue :=
  {| model.Key := key; VType := StringType; VStr := value;
     VInt64 := 0; VFloat64 := 0%float; VBool := false; VBinary := [] |}.

Definition envRule (kind : ActionType) : AttributeAction :=
  {| Key := "env"; Value := "prod"; Action := kind |}.

End MoreAttributeNotions.

Section MoreSamplingNotions.
Import GoNum model sampling.

(** The three values the adaptive rate can take for a base rate. *)
Definition rateOfBase (base rate : float) : Prop :=
  rate = base
  \/ rate = min 1%float (PrimFloat.mul base 1.5%float)
  \/ rate = min 1%float (PrimFloat.mul base 2%float).

Definition windowConfig (window : Z) : SamplingConfig :=
  {| BaseSampleRate := 0.1%float; AlwaysSampleErrors := true;
     SlowThreshold := 1 * Second; AdaptiveWindow := window |}.

End MoreSamplingNotions.

Section MoreBatchNotions.
Import model batch.

(** Events whose flush, if any, is not interrupted. *)
Definition uncut (e : event) : bool :=
  match e with
  | Recv _ None | InClosed None | Tick None | Done => true
  | _ => false
  end.

(** A list cut into consecutive pieces of [n] elements, the last one
    possibly shorter. *)
Fixpoint chunks (fuel n : nat) (l : list Span) : list (list Span) :=
  match fuel with
  | O => []
  | S fuel' =>
      match l with
      | [] => []
      | _ :: _ => take n l :: chunks fuel' n (drop n l)
      end
  end.

Definition sizedBatch (size : Z) : BatchProcessor :=
  {| timeout := 1000000000; batchSize := 8192; sendBatchSize := size |}.

End MoreBatchNotions.

Section MoreObservabilityNotions.
Import GoNum observability.

Definition RecordSpanProcessed (m : Metrics) : Metrics :=
  {| spansReceived := spansReceived m;
     spansProcessed := uint64_add (spansProcessed m) 1;
     spansDropped := spansDropped m; spansExported := spansExported m;
     exportErrors := exportErrors m;
     processingTimes := processingTimes m; maxSamples := maxSamples m |}.

Definition RecordSpanExported (m : Metrics) : Metrics :=
  {| spansReceived := spansReceived m; spansProcessed := spansProcessed m;
     spansDropped := spansDropped m;
     spansExported := uint64_add (spansExported m) 1;
     exportErrors := exportErrors m;
     processingTimes := processingTimes m; maxSamples := maxSamples m |}.

Definition RecordExportError (m : Metrics) : Metrics :=
  {| spansReceived := spansReceived m; spansProcessed := spansProcessed m;
     spansDropped := spansDropped m; spansExported := spansExported m;
     exportErrors := uint64_add (exportErrors m) 1;
     processingTimes := processingTimes m; maxSamples := maxSamples m |}.

(** One call of a counter method; a list of them is one interleaving of the
    concurrent callers. *)
Inductive counterCall := Received | Processed | Dropped | Exported | Failed.

Definition counterCall_eqb (x y : counterCall) : bool :=
  match x, y with
  | Received, Received | Processed, Processed | Dropped, Dropped
  | Exported, Exported | Failed, Failed => true
  | _, _ => false
  end.

Definition record (m : Metrics) (c : counterCall) : Metrics :=
  match c with
  | Received => RecordSpanReceived m
  | Processed => RecordSpanProcessed m
  | Dropped => RecordSpanDropped m
  | Exported => RecordSpanExported m
  | Failed => RecordExportError m
  end.

Definition calls (c : counterCall) (cs : list counterCall) : Z :=
  Z.of_nat (length (List.filter (counterCall_eqb c) cs)).

Definition withBuffer (buf : list Z) (c : Z) : Metrics :=
  {| spansReceived := 0; spansProcessed := 0; spansDropped := 0;
     spansExported := 0; exportErrors := 0;
     processingTimes := buf; maxSamples := c |}.

(** [handleHealth]: the status and the HTTP status code it writes ([None]
    when [Snapshot] panics). *)
Definition StatusOK : Z := 200.
Definition StatusServiceUnavailable : Z := 503.

Definition handleHealth (h : HealthCheck) (m : Metrics)
  : option (HealthStatus * Z * MetricsSnapshot) :=
  match Snapshot m with
  | Some (snapshot, _) =>
      let status := determineStatus h snapshot in
      let code :=
        match status with
        | HealthStatusHealthy => StatusOK
        | HealthStatusDegraded => StatusOK
        | HealthStatusUnhealthy => StatusServiceUnavailable
        end in
      Some (status, code, snapshot)
  | None => None
  end.

End MoreObservabilityNotions.

Section CounterNotions.
Import GoNum observability.

Definition counter (c : counterCall) (m : Metrics) : Z :=
  match c with
  | Received => spansReceived m
  | Processed => spansProcessed m
  | Dropped => spansDropped m
  | Exported => spansExported m
  | Failed => exportErrors m
  end.

Definition snapshotCounter (c : counterCall) (s : MetricsSnapshot) : Z :=
  match c with
  | Received => SpansReceived s
  | Processed => SpansProcessed s
  | Dropped => SpansDropped s
  | Exported => SpansExported s
  | Failed => ExportErrors s
  end.

End CounterNotions.

From Stdlib Require Import Ascii.

(** ** pkg/model: the text form of identifiers *)

Module modelText.
Import model.

Definition hexDigit (d : Z) : ascii :=
  match d with
  | 0 => "0" | 1 => "1" | 2 => "2" | 3 => "3" | 4 => "4" | 5 => "5"
  | 6 => "6" | 7 => "7" | 8 => "8" | 9 => "9" | 10 => "a" | 11 => "b"
  | 12 => "c" | 13 => "d" | 14 => "e" | 15 => "f" | _ => "0"
  end%char.

(** The [n] low hexadecimal digits of [v], most significant first, in front
    of [acc]. *)
Fixpoint hexDigits (n : nat) (v : Z) (acc : string) : string :=
  match n with
  | O => acc
  | S k => hexDigits k (v / 16) (String (hexDigit (v mod 16)) acc)
  end.

(** [fmt.Sprintf("%016x", v)] for a [uint64]: lower-case hexadecimal, padded
    with zeros to 16 digits, which a 64-bit value never exceeds. *)
Definition Sprintf_016x (v : Z) : string := hexDigits 16 v "".

Definition SpanID_String (s : Z) : string := Sprintf_016x s.

Definition TraceID_String (t : TraceID) : string :=
  if High t =? 0 then SpanID_String (Low t)
  else String.append (SpanID_String (High t)) (SpanID_String (Low t)).

Definition SpanID_IsValid (s : Z) : bool := negb (s =? 0).

Definition uint64_range (v : Z) : Prop := 0 <= v < 2 ^ 64.

End modelText.

(** ** pkg/config: Validate *)

Module config.

(** The labels of a receiver, processor or exporter block; [Validate] reads
    neither them nor the block bodies. *)
Record Block := mkBlock { BlockType : string; BlockName : string }.

Record PipelineBlock := mkPipelineBlock {
  Name : string;
  Receivers : list string;
  Processors : list string;
  Exporters : list string
}.

Record Config := mkConfig {
  ReceiverBlocks : list Block;
  ProcessorBlocks : list Block;
  ExporterBlocks : list Block;
  Pipelines : list PipelineBlock
}.

(** The loop of [Validate]; [None] is no error so far. *)
Fixpoint Validate_loop (pipelines : list PipelineBlock) : option string :=
  match pipelines with
  | [] => None
  | pipeline :: rest =>
      if Z.of_nat (length (Receivers pipeline)) =? 0
      then Some (String.append "pipeline "
                   (String.append (Name pipeline) " has no receivers"))
      else if Z.of_nat (length (Exporters pipeline)) =? 0
      then Some (String.append "pipeline "
                   (String.append (Name pipeline) " has no exporters"))
      else Validate_loop rest
  end.

(** [Validate]: the error message, or [None] for a nil error. *)
Definition Validate (c : Config) : option string :=
  if Z.of_nat (length (Pipelines c)) =? 0
  then Some "at least one pipeline must be defined"
  else Validate_loop (Pipelines c).

(** A pipeline with a receiver and an exporter. *)
Definition connected (p : PipelineBlock) : Prop :=
  Receivers p <> [] /\ Exporters p <> [].

Definition tracesPipeline (receivers exporters : list string)
  : PipelineBlock :=
  {| Name := "traces"; Receivers := receivers; Processors := [];
     Exporters := exporters |}.

Definition configOf (pipelines : list PipelineBlock) : Config :=
  {| ReceiverBlocks := []; ProcessorBlocks := []; ExporterBlocks := [];
     Pipelines := pipelines |}.

End config.

Section IdleNotions.
Import GoNum observability.

(** Go's [0 < x] on float64. *)
Definition positive_threshold (x : float) : Prop :=
  PrimFloat.ltb 0%float x = true.

Definition idleSnapshot (dropped failed : Z) : MetricsSnapshot :=
  {| SpansReceived := 0; SpansProcessed := 0; SpansDropped := dropped;
     SpansExported := 0; ExportErrors := failed;
     LatencyP50 := 0; LatencyP95 := 0; LatencyP99 := 0 |}.

End IdleNotions.

(** ** pkg/deployment *)

Module deployment.

Definition Strategy := string.
Definition AllInOne : Strategy := "allinone".
Definition Production : Strategy := "production".
Definition Streaming : Strategy := "streaming".

Definition StorageType := string.
Definition Memory : StorageType := "memory".
Definition Elasticsearch : StorageType := "elasticsearch".
Definition Cassandra : StorageType := "cassandra".
Definition Kafka : StorageType := "kafka".
Definition Badger : StorageType := "badger".

Record ElasticsearchConfig := mkElasticsearchConfig {
  URLs : list string;
  IndexPrefix : string;
  Username : string;
  Password : string
}.

Record CassandraConfig := mkCassandraConfig {
  Servers : list string;
  Keyspace : string
}.

Record KafkaConfig := mkKafkaConfig {
  Brokers : list string;
  Topic : string
}.

Record StorageSpec := mkStorageSpec {
  StorageKind : StorageType;
  ElasticsearchStorage : option ElasticsearchConfig;
  CassandraStorage : option CassandraConfig;
  KafkaStorage : option KafkaConfig
}.

Record AutoscaleSpec := mkAutoscaleSpec {
  AutoscaleEnabled : bool;
  MinReplicas : Z;
  MaxReplicas : Z;
  CPUTarget : Z
}.

Record ResourceList := mkResourceList { CPU : string; MemoryAmount : string }.

Record ResourceSpec := mkResourceSpec {
  Requests : ResourceList;
  Limits : ResourceList
}.

Record CollectorSpec := mkCollectorSpec {
  CollectorReplicas : Z;
  Autoscale : option AutoscaleSpec;
  CollectorResources : option ResourceSpec
}.

Record QuerySpec := mkQuerySpec {
  QueryReplicas : Z;
  QueryResources : option ResourceSpec
}.

Record IngressSpec := mkIngressSpec {
  Enabled : bool;
  Host : string;
  TLS : bool;
  Annotations : list (string * string)
}.

Record DeploymentSpec := mkDeploymentSpec {
  Name : string;
  DeploymentStrategy : Strategy;
  Storage : StorageSpec;
  Collector : CollectorSpec;
  Query : QuerySpec;
  Ingress : IngressSpec
}.

(** The manifests of the [switch] on the strategy; [None] is its
    [default] branch. *)
Definition strategyManifests (s : Strategy) : option (list string) :=
  let manifests : list string := [] in
  if String.eqb s AllInOne then
    Some ((manifests ++ ["StatefulSet: jaeger-allinone"])
          ++ ["Service: jaeger-query"])
  else if String.eqb s Production then
    Some (((((manifests ++ ["Deployment: jaeger-collector"])
             ++ ["Deployment: jaeger-query"])
            ++ ["DaemonSet: jaeger-agent"])
           ++ ["Service: jaeger-collector"])
          ++ ["Service: jaeger-query"])
  else if String.eqb s Streaming then
    Some (((((manifests ++ ["Deployment: jaeger-collector"])
             ++ ["Deployment: jaeger-ingester"])
            ++ ["Deployment: jaeger-query"])
           ++ ["Service: jaeger-collector"])
          ++ ["Service: jaeger-query"])
  else None.

(** [Plan]: the manifests, or the error message. *)
Definition Plan (spec : DeploymentSpec) : list string + string :=
  match strategyManifests (DeploymentStrategy spec) with
  | None =>
      inr (String.append "unknown strategy: " (DeploymentStrategy spec))
  | Some manifests =>
      let manifests :=
        if Enabled (Ingress spec)
        then manifests ++ ["Ingress: jaeger-query"] else manifests in
      let manifests :=
        match Autoscale (Collector spec) with
        | Some autoscale =>
            if AutoscaleEnabled autoscale
            then manifests ++ ["HorizontalPodAutoscaler: jaeger-collector"]
            else manifests
        | None => manifests
        end in
      inl manifests
  end.

(** [Validate]: the error message, or [None] for a nil error. *)
Definition Validate (d : DeploymentSpec) : option string :=
  if String.eqb (Name d) "" then Some "deployment name is required"
  else if negb (String.eqb (DeploymentStrategy d) AllInOne)
          && negb (String.eqb (DeploymentStrategy d) Production)
          && negb (String.eqb (DeploymentStrategy d) Streaming)
  then Some (String.append "invalid strategy: " (DeploymentStrategy d))
  else if String.eqb (StorageKind (Storage d)) "" then
    Some "storage type is required"
  else None.

Definition autoscaled (spec : DeploymentSpec) : bool :=
  match Autoscale (Collector spec) with
  | Some autoscale => AutoscaleEnabled autoscale
  | None => false
  end.

Definition devSpec : DeploymentSpec :=
  {| Name := "dev"; DeploymentStrategy := AllInOne;
     Storage := {| StorageKind := Memory; ElasticsearchStorage := None;
                   CassandraStorage := None; KafkaStorage := None |};
     Collector := {| CollectorReplicas := 1; Autoscale := None;
                     CollectorResources := None |};
     Query := {| QueryReplicas := 1; QueryResources := None |};
     Ingress := {| Enabled := true; Host := "jaeger.local"; TLS := false;
                   Annotations := [] |} |}.

End deployment.

(** * Properties *)

(** ** Binary64 doubling *)

Section FloatFacts.

(** Doubling a positive binary64 below 1 is exact and gives a larger number:
    the exponent goes up by one, or, for a subnormal, the mantissa doubles. *)
Lemma SFmul_two (m : positive) (e : Z) :
  bounded prec emax m e = true -> e <= -53 ->
  SFltb (S754_finite false m e)
        (SF64mul (S754_finite false m e)
                 (S754_finite false 4503599627370496 (-51)))
  = true.
Proof.
  intros Hb He.
  unfold bounded, canonical_mantissa in Hb.
  apply andb_true_iff in Hb as [Hc _]. apply Z.eqb_eq in Hc.
  unfold fexp, emin, prec, emax in Hc.
  unfold SF64mul, SFmul. rewrite Pos.mul_comm. cbn [xorb].
  let shifted := eval cbv beta iota delta [Pos.mul] in
                   (4503599627370496 * m)%positive in
  change (4503599627370496 * m)%positive with shifted.
  unfold binary_round_aux.
  unfold shr_fexp at 1. cbn [Zdigits2 digits2_pos shr_record_of_loc].
  set (d := digits2_pos m) in *.
  destruct (Z_le_gt_dec (-1074) (Z.pos d + e - 53)) as [Hn|Hs].
  - (* normal *)
    assert (Z.pos d = 53) as Hd by lia.
    match goal with |- context [shr _ _ ?n] =>
      replace n with 52 by (unfold fexp, emin, prec, emax; lia) end.
    cbn [shr SpecFloat.iter_pos shr_1 shr_m shr_r shr_s orb loc_of_shr_record
         round_nearest_even fst snd].
    unfold shr_fexp. cbn [Zdigits2 shr_record_of_loc]. fold d.
    match goal with |- context [shr _ _ ?n] =>
      replace n with 0 by (unfold fexp, emin, prec, emax; lia) end.
    cbn [shr shr_m].
    replace (e + -51 + 52 <=? emax - prec) with true
      by (symmetry; apply Z.leb_le; unfold emax, prec; lia).
    unfold SFltb, SFcompare.
    replace (e ?= e + -51 + 52) with Lt
      by (symmetry; apply Z.compare_lt_iff; lia).
    reflexivity.
  - (* subnormal *)
    assert (e = -1074) as -> by lia.
    match goal with |- context [shr _ _ ?n] =>
      replace n with 51 by (unfold fexp, emin, prec, emax; lia) end.
    cbn [shr SpecFloat.iter_pos shr_1 shr_m shr_r shr_s orb loc_of_shr_record
         round_nearest_even fst snd].
    unfold shr_fexp. cbn [Zdigits2 digits2_pos shr_record_of_loc]. fold d.
    match goal with |- context [shr _ _ ?n] =>
      replace n with 0 by (unfold fexp, emin, prec, emax; lia) end.
    cbn [shr shr_m].
    replace (-1074 + -51 + 51 <=? emax - prec) with true by reflexivity.
    unfold SFltb, SFcompare.
    replace (-1074 ?= -1074 + -51 + 51) with Eq by reflexivity.
    rewrite Pos.compare_cont_spec. 
    replace (m ?= m~0)%positive with Lt
      by (symmetry; apply Pos.compare_lt_iff; lia).
    reflexivity.
Qed.

Lemma digits2_pos_size (m : positive) : digits2_pos m = Pos.size m.
Proof. induction m; simpl; congruence. Qed.

Lemma below_one_exponent (m : positive) (e : Z) :
  bounded prec emax m e = true ->
  SFltb (S754_finite false m e)
        (S754_finite false 4503599627370496 (-52)) = true ->
  e <= -53.
Proof.
  intros Hb Hlt.
  unfold SFltb, SFcompare in Hlt.
  destruct (e ?= -52) eqn:Hc; try discriminate.
  - apply Z.compare_eq in Hc. subst e. exfalso.
    rewrite Pos.compare_cont_spec in Hlt.
    assert (m < 4503599627370496)%positive as Hm.
    { unfold Pos.lt.
      destruct (m ?= 4503599627370496)%positive;
        [discriminate Hlt|reflexivity|discriminate Hlt]. }
    clear Hlt.
    unfold bounded, canonical_mantissa in Hb.
    apply andb_true_iff in Hb as [Hcm _]. apply Z.eqb_eq in Hcm.
    unfold fexp, emin, prec, emax in Hcm.
    rewrite digits2_pos_size in Hcm.
    assert (Pos.size m = 53%positive) as Hs by (clear Hm; lia).
    pose proof (Pos.size_le m) as Hle. rewrite Hs in Hle.
    change (2 ^ 53)%positive with 9007199254740992%positive in Hle.
    clear Hcm Hs.
    apply Pos2Z.pos_lt_pos in Hm. apply Pos2Z.pos_le_pos in Hle.
    rewrite (Pos2Z.inj_xO m) in Hle. lia.
  - assert (e < -52) as Hlt' by exact Hc. clear - Hlt'. lia.
Qed.

(** On the primitive floats, through the specification of [*] and [<]. *)
Lemma double_above (b : float) :
  PrimFloat.ltb 0 b = true -> PrimFloat.ltb b 1 = true ->
  PrimFloat.ltb b (b * 2) = true.
Proof.
  intros H0 H1. rewrite ltb_spec in H0, H1.
  rewrite ltb_spec, mul_spec.
  pose proof (Prim2SF_valid b) as Hv.
  change (Prim2SF 0) with (S754_zero false) in H0.
  change (Prim2SF 1) with (S754_finite false 4503599627370496 (-52)) in H1.
  change (Prim2SF 2) with (S754_finite false 4503599627370496 (-51)).
  destruct (Prim2SF b) as [s|s| |s m e]; try discriminate.
  - destruct s; discriminate.
  - destruct s; [discriminate|].
    simpl in Hv. apply SFmul_two; [exact Hv|].
    now apply below_one_exponent with m.
Qed.

End FloatFacts.

(** ** Sampling *)

Section SamplingFacts.
Import GoNum model sampling.

Lemma isErrorTag_spec (tag : KeyValue) :
  isErrorTag tag = true <-> errorTagCondition tag.
Proof.
  unfold isErrorTag, errorTagCondition.
  rewrite orb_true_iff, !andb_true_iff, !String.eqb_eq, Z.leb_le.
  tauto.
Qed.

Lemma isErrorTags_spec (tags : list KeyValue) :
  isErrorTags tags = true <-> exists tag, tag ∈ tags /\ errorTagCondition tag.
Proof.
  induction tags as [|t rest IH]; simpl.
  - split; [discriminate|]. intros (tag & Hin & _). inversion Hin.
  - destruct (isErrorTag t) eqn:Ht.
    + split; [|reflexivity]. intros _. exists t. split; [left|].
      now apply isErrorTag_spec.
    + rewrite IH. split.
      * intros (tag & Hin & Hc). exists tag. split; [now right|exact Hc].
      * intros (tag & Hin & Hc). apply elem_of_cons in Hin as [->|Hin].
        -- apply isErrorTag_spec in Hc. congruence.
        -- exists tag. auto.
Qed.

Lemma isError_spec (span : Span) :
  isError span = true <->
  exists tag, tag ∈ Tags span /\ errorTagCondition tag.
Proof. apply isErrorTags_spec. Qed.

Lemma shouldSample_error (a : arch) (span : Span) (p : SamplingProcessor) :
  alwaysSampleErrors p = true -> isError span = true ->
  shouldSample a span p = (true, recordSample true p).
Proof. intros Ha He. unfold shouldSample. now rewrite Ha, He. Qed.

Lemma shouldSample_slow (a : arch) (span : Span) (p : SamplingProcessor) :
  alwaysSampleErrors p = false \/ isError span = false ->
  slowThreshold p <= Duration span ->
  shouldSample a span p = (true, recordSample false p).
Proof.
  intros Hno Hslow. unfold shouldSample.
  assert (alwaysSampleErrors p && isError span = false) as ->
    by (apply andb_false_iff; exact Hno).
  apply Z.leb_le in Hslow. now rewrite Hslow.
Qed.

Lemma shouldSample_adaptive (a : arch) (span : Span) (p : SamplingProcessor) :
  alwaysSampleErrors p = false \/ isError span = false ->
  Duration span < slowThreshold p ->
  shouldSample a span p =
    (deterministicSample a (Trace span) (adaptiveRate p),
     recordSample (isError span) p).
Proof.
  intros Hno Hfast. unfold shouldSample, getAdaptiveRate.
  assert (alwaysSampleErrors p && isError span = false) as ->
    by (apply andb_false_iff; exact Hno).
  apply Z.leb_gt in Hfast. now rewrite Hfast.
Qed.

(** C1.  [shouldSample] checks its three rules in order and the first that
    matches decides: an error span (when errors are always kept) is kept and
    recorded as an error; otherwise a slow span is kept and recorded as a
    non-error, also when its tags say error; otherwise the adaptive rule on
    the current rate decides and the span is recorded by its tags. *)
Theorem shouldSample_priority_order (a : arch) (span : Span)
    (p : SamplingProcessor) :
  (isError span = true <->
     exists tag, tag ∈ Tags span /\ errorTagCondition tag)
  /\ (alwaysSampleErrors p = true -> isError span = true ->
      shouldSample a span p = (true, recordSample true p))
  /\ ((alwaysSampleErrors p = false \/ isError span = false) ->
      slowThreshold p <= Duration span ->
      shouldSample a span p = (true, recordSample false p))
  /\ ((alwaysSampleErrors p = false \/ isError span = false) ->
      Duration span < slowThreshold p ->
      shouldSample a span p =
        (deterministicSample a (Trace span) (adaptiveRate p),
         recordSample (isError span) p)).
Proof.
  split; [apply isError_spec|]. split; [|split].
  - apply shouldSample_error.
  - apply shouldSample_slow.
  - apply shouldSample_adaptive.
Qed.

(** A slow span with an error tag, errors not forced: kept by the latency
    rule and counted as a non-error. *)
Lemma slow_error_span_recorded_as_non_error :
  let p := NewSamplingProcessor
             {| BaseSampleRate := 0.1%float; AlwaysSampleErrors := false;
                SlowThreshold := 40 * Millisecond; AdaptiveWindow := 1000 |} in
  isError errorSpan = true
  /\ fst (shouldSample amd64 errorSpan p) = true
  /\ recentErrors (snd (shouldSample amd64 errorSpan p)) = 0
  /\ recentTotal (snd (shouldSample amd64 errorSpan p)) = 1.
Proof. vm_compute. repeat split; reflexivity. Qed.

(** C2.  Two spans with the same trace identifier get the same adaptive
    decision at a given rate, whatever else differs: the decision is
    [Low <= threshold rate], and so is the return value of [shouldSample]
    whenever both spans reach the adaptive rule. *)
Theorem adaptive_decision_same_trace (a : arch) (rate : float)
    (s1 s2 : Span) (Hsame : Trace s1 = Trace s2) :
  deterministicSample a (Trace s1) rate = deterministicSample a (Trace s2) rate
  /\ (deterministicSample a (Trace s1) rate = true <->
      Low (Trace s1) <= threshold a rate)
  /\ forall p : SamplingProcessor,
       adaptiveRate p = rate ->
       (alwaysSampleErrors p = false \/ isError s1 = false) ->
       (alwaysSampleErrors p = false \/ isError s2 = false) ->
       Duration s1 < slowThreshold p -> Duration s2 < slowThreshold p ->
       fst (shouldSample a s1 p) = fst (shouldSample a s2 p).
Proof.
  split; [now rewrite Hsame|]. split.
  - unfold deterministicSample. apply Z.leb_le.
  - intros p <- H1 H2 D1 D2.
    rewrite (shouldSample_adaptive a s1 p H1 D1).
    rewrite (shouldSample_adaptive a s2 p H2 D2). simpl. now rewrite Hsame.
Qed.

Lemma adaptive_decision_same_trace_witness :
  deterministicSample amd64 (Trace span_a) 0.1%float
  = deterministicSample amd64 (Trace span_b) 0.1%float.
Proof.
  exact (proj1 (adaptive_decision_same_trace amd64 0.1%float span_a span_b
                  eq_refl)).
Defined.

(** C3 (as amended).  When the incremented total reaches the window,
    [recordSample] sets the adaptive rate to [min 1 (base*2)] if the observed
    error rate exceeds 5%, to [min 1 (base*1.5)] if it exceeds 1%, and to the
    base rate otherwise, and resets both counters; below the window it only
    counts.  50 error and 50 non-error records with a window of 100 give the
    rate [min 1 (base*2)] for every base rate, which is strictly above every
    base rate strictly between 0 and 1 (for 0.1 it is 0.2). *)
Theorem recordSample_recalculates (isErr : bool) (p : SamplingProcessor) :
  let total := int_add (recentTotal p) 1 in
  let errors := if isErr then int_add (recentErrors p) 1 else recentErrors p in
  let errorRate := PrimFloat.div (float64_of_Z errors) (float64_of_Z total) in
  let base := baseSampleRate p in
  let p' := recordSample isErr p in
  (baseSampleRate p' = base /\ adaptiveWindow p' = adaptiveWindow p)
  /\ (adaptiveWindow p <= total ->
      recentErrors p' = 0 /\ recentTotal p' = 0 /\
      adaptiveRate p' =
        if PrimFloat.ltb 0.05%float errorRate
        then min 1%float (PrimFloat.mul base 2%float)
        else if PrimFloat.ltb 0.01%float errorRate
        then min 1%float (PrimFloat.mul base 1.5%float)
        else base)
  /\ (total < adaptiveWindow p ->
      recentErrors p' = errors /\ recentTotal p' = total /\
      adaptiveRate p' = adaptiveRate p)
  /\ (forall (b : float) (always : bool) (slow : Z),
        let fresh := NewSamplingProcessor
                       {| BaseSampleRate := b; AlwaysSampleErrors := always;
                          SlowThreshold := slow; AdaptiveWindow := 100 |} in
        let q := recordSamples 50 false (recordSamples 50 true fresh) in
        adaptiveRate q = min 1%float (PrimFloat.mul b 2%float)
        /\ recentErrors q = 0 /\ recentTotal q = 0)
  /\ (forall (b : float) (always : bool) (slow : Z),
        PrimFloat.ltb 0%float b = true -> PrimFloat.ltb b 1%float = true ->
        let fresh := NewSamplingProcessor
                       {| BaseSampleRate := b; AlwaysSampleErrors := always;
                          SlowThreshold := slow; AdaptiveWindow := 100 |} in
        let q := recordSamples 50 false (recordSamples 50 true fresh) in
        PrimFloat.ltb (baseSampleRate q) (adaptiveRate q) = true)
  /\ (let fresh := NewSamplingProcessor
                     {| BaseSampleRate := 0.1%float; AlwaysSampleErrors := true;
                        SlowThreshold := 1 * Second; AdaptiveWindow := 100 |} in
      let q := recordSamples 50 false (recordSamples 50 true fresh) in
      adaptiveRate q = 0.2%float
      /\ PrimFloat.ltb (baseSampleRate q) (adaptiveRate q) = true).
Proof.
  cbv zeta. unfold recordSample.
  split; [|split; [|split; [|split; [|split]]]].
  - destruct (adaptiveWindow p <=? int_add (recentTotal p) 1); now simpl.
  - intros H. apply Z.leb_le in H. rewrite H. now simpl.
  - intros H. apply Z.leb_gt in H. rewrite H. now simpl.
  - intros b always slow. vm_compute. repeat split.
  - intros b always slow Hpos Hlt.
    change (PrimFloat.ltb b (min 1%float (PrimFloat.mul b 2%float)) = true).
    unfold min. destruct (PrimFloat.ltb 1 (PrimFloat.mul b 2));
      [exact Hlt|now apply double_above].
  - vm_compute. split; reflexivity.
Qed.

(** With base rate 0.0 the same 100 records leave the adaptive rate at 0.0:
    not above the base rate. *)
Lemma recordSample_zero_base_not_raised :
  let fresh := NewSamplingProcessor
                 {| BaseSampleRate := 0%float; AlwaysSampleErrors := true;
                    SlowThreshold := 1 * Second; AdaptiveWindow := 100 |} in
  let q := recordSamples 50 false (recordSamples 50 true fresh) in
  adaptiveRate q = baseSampleRate q
  /\ PrimFloat.ltb (baseSampleRate q) (adaptiveRate q) = false.
Proof. vm_compute. split; reflexivity. Qed.

Lemma threshold_zero (a : arch) : threshold a 0%float = 0.
Proof. destruct a; vm_compute; reflexivity. Qed.

Lemma recordSample_keeps_zero_rate (isErr : bool) (p : SamplingProcessor) :
  baseSampleRate p = 0%float -> adaptiveRate p = 0%float ->
  adaptiveRate (recordSample isErr p) = 0%float.
Proof.
  intros Hb Ha. unfold recordSample. rewrite Hb, Ha.
  destruct (adaptiveWindow p <=? _); simpl; [|reflexivity].
  destruct (PrimFloat.ltb 0.05 _); [vm_compute; reflexivity|].
  destruct (PrimFloat.ltb 0.01 _); [vm_compute|]; reflexivity.
Qed.

(** C8 (as amended).  At base and adaptive rate 0.0 with errors always kept,
    a span with an [error=true] tag is kept, and a span that is neither an
    error nor slow is dropped exactly when the low half of its trace
    identifier is not zero: the threshold is 0 and the comparison is [<=].
    The adaptive rate stays 0.0. *)
Theorem zero_rate_sampling (a : arch) (span : Span) (p : SamplingProcessor)
    (Hbase : baseSampleRate p = 0%float) (Hrate : adaptiveRate p = 0%float)
    (Halways : alwaysSampleErrors p = true) :
  ((exists tag, tag ∈ Tags span /\ errorTrueTag tag) ->
   fst (shouldSample a span p) = true)
  /\ (isError span = false -> Duration span < slowThreshold p ->
      0 <= Low (Trace span) ->
      (fst (shouldSample a span p) = false <-> Low (Trace span) <> 0))
  /\ adaptiveRate (snd (shouldSample a span p)) = 0%float.
Proof.
  split; [|split].
  - intros (tag & Hin & Htag).
    rewrite shouldSample_error; [reflexivity|exact Halways|].
    apply isError_spec. exists tag. split; [exact Hin|]. now left.
  - intros Hne Hfast Hlow.
    rewrite (shouldSample_adaptive a span p (or_intror Hne) Hfast). simpl.
    unfold deterministicSample. rewrite Hrate, threshold_zero.
    rewrite Z.leb_gt. lia.
  - unfold shouldSample.
    destruct (alwaysSampleErrors p && isError span);
      [|destruct (slowThreshold p <=? Duration span)];
      simpl; now apply recordSample_keeps_zero_rate.
Qed.

Lemma zero_rate_sampling_witness :
  fst (shouldSample amd64 errorSpan zeroRateProcessor) = true.
Proof.
  refine (proj1 (zero_rate_sampling amd64 errorSpan zeroRateProcessor
                   eq_refl eq_refl eq_refl) _).
  eexists. split; [apply list_elem_of_here|]. repeat split.
Defined.

(** A valid trace identifier with low half 0: neither an error nor slow, and
    kept at rate 0.0. *)
Lemma zero_rate_keeps_zero_low :
  TraceID_IsValid (Trace zeroLowSpan) = true
  /\ adaptiveRate zeroRateProcessor = 0%float
  /\ isError zeroLowSpan = false
  /\ Duration zeroLowSpan < slowThreshold zeroRateProcessor
  /\ fst (shouldSample amd64 zeroLowSpan zeroRateProcessor) = true
  /\ fst (shouldSample arm64 zeroLowSpan zeroRateProcessor) = true.
Proof. vm_compute. repeat split; reflexivity. Qed.

(** [float64(^uint64(0))] is 2^64, one more than the largest uint64. *)
Lemma maxUint64_float_rounds_up :
  maxUint64_float = 0x1p64%float /\ trunc maxUint64_float = Some (maxUint64 + 1).
Proof. vm_compute. split; reflexivity. Qed.

Lemma threshold_one_arm64 : threshold arm64 1%float = maxUint64.
Proof. vm_compute. reflexivity. Qed.

Lemma threshold_one_amd64 : threshold amd64 1%float = 2 ^ 63.
Proof. vm_compute. reflexivity. Qed.

(** On arm64 rate 1.0 keeps every trace identifier. *)
Lemma full_rate_keeps_all_arm64 (traceID : TraceID) :
  Low traceID <= maxUint64 ->
  deterministicSample arm64 traceID 1%float = true.
Proof.
  intros H. unfold deterministicSample. rewrite threshold_one_arm64.
  now apply Z.leb_le.
Qed.

(** On amd64 rate 1.0 keeps exactly the lower half of the identifiers. *)
Lemma full_rate_keeps_half_amd64 (traceID : TraceID) :
  deterministicSample amd64 traceID 1%float = true <-> Low traceID <= 2 ^ 63.
Proof.
  unfold deterministicSample. rewrite threshold_one_amd64. apply Z.leb_le.
Qed.

(** C9, at the failing input.  With base rate 1.0 and errors not forced, a
    span below the slow threshold whose trace identifier has low half
    2^64-1 is dropped by the amd64 build: the scaled range 2^64 does not fit
    uint64 and the conversion yields 2^63. *)
Theorem full_rate_drops_high_trace_amd64 :
  adaptiveRate fullRateProcessor = 1%float
  /\ alwaysSampleErrors fullRateProcessor = false
  /\ Duration maxLowSpan < slowThreshold fullRateProcessor
  /\ threshold amd64 (adaptiveRate fullRateProcessor) = 2 ^ 63
  /\ fst (shouldSample amd64 maxLowSpan fullRateProcessor) = false.
Proof. vm_compute. repeat split; reflexivity. Qed.

End SamplingFacts.

(** ** Health status *)

Section HealthFacts.
Import GoNum observability.

Lemma orb_true_or (a b : bool) : a || b = true <-> a = true \/ b = true.
Proof. apply orb_true_iff. Qed.

Lemma determineStatus_cases (h : HealthCheck) (s : MetricsSnapshot) :
  (critical h s /\ determineStatus h s = HealthStatusUnhealthy)
  \/ (~ critical h s /\ warning h s
      /\ determineStatus h s = HealthStatusDegraded)
  \/ (~ critical h s /\ ~ warning h s
      /\ determineStatus h s = HealthStatusHealthy).
Proof.
  unfold determineStatus, critical, warning.
  destruct (geb (DropRate s) (dropRateCritical h)
            || geb (ErrorRate s) (errorRateCritical h)) eqn:Hc.
  - left. split; [now apply orb_true_or|reflexivity].
  - right.
    assert (~ (geb (DropRate s) (dropRateCritical h) = true
               \/ geb (ErrorRate s) (errorRateCritical h) = true)) as Hnc.
    { rewrite <- orb_true_or, Hc. discriminate. }
    destruct (geb (DropRate s) (dropRateWarning h)
              || geb (ErrorRate s) (errorRateWarning h)) eqn:Hw.
    + left. split; [exact Hnc|]. split; [now apply orb_true_or|reflexivity].
    + right. split; [exact Hnc|]. split; [|reflexivity].
      rewrite <- orb_true_or, Hw. discriminate.
Qed.

(** C4.  The status is unhealthy iff a rate reaches its critical threshold,
    otherwise degraded iff a rate reaches its warning threshold, otherwise
    healthy.  With the default thresholds 1, 5, 2 and 10 (in percent): a drop
    rate of 6 is unhealthy; a drop rate of 2 is degraded (the error rate
    being below its critical 10, as when nothing was exported); a drop rate
    of 0.1 with error rate 0 is healthy. *)
Theorem determineStatus_thresholds (h : HealthCheck) (s : MetricsSnapshot) :
  (determineStatus h s = HealthStatusUnhealthy <-> critical h s)
  /\ (determineStatus h s = HealthStatusDegraded <->
      ~ critical h s /\ warning h s)
  /\ (determineStatus h s = HealthStatusHealthy <->
      ~ critical h s /\ ~ warning h s)
  /\ DefaultHealthCheckConfig =
       {| dropRateWarning := 1%float; dropRateCritical := 5%float;
          errorRateWarning := 2%float; errorRateCritical := 10%float |}
  /\ (DropRate s = 6%float ->
      determineStatus DefaultHealthCheckConfig s = HealthStatusUnhealthy)
  /\ (DropRate s = 2%float -> geb (ErrorRate s) 10%float = false ->
      determineStatus DefaultHealthCheckConfig s = HealthStatusDegraded)
  /\ (DropRate s = 0.1%float -> ErrorRate s = 0%float ->
      determineStatus DefaultHealthCheckConfig s = HealthStatusHealthy).
Proof.
  split; [|split; [|split; [|split; [reflexivity|]]]].
  - destruct (determineStatus_cases h s) as [[? E]|[(? & ? & E)|(? & ? & E)]];
      rewrite E; split; intros; try discriminate; tauto.
  - destruct (determineStatus_cases h s) as [[? E]|[(? & ? & E)|(? & ? & E)]];
      rewrite E; split; intros; try discriminate; tauto.
  - destruct (determineStatus_cases h s) as [[? E]|[(? & ? & E)|(? & ? & E)]];
      rewrite E; split; intros; try discriminate; tauto.
  - unfold determineStatus. simpl. split; [|split].
    + intros ->. reflexivity.
    + intros -> ->. reflexivity.
    + intros -> ->. reflexivity.
Qed.

(** The three examples on snapshots with 6 of 100, 2 of 100 and 1 of 1000
    spans dropped and nothing exported. *)
Lemma determineStatus_examples :
  DropRate (dropSnapshot 100 6) = 6%float
  /\ determineStatus DefaultHealthCheckConfig (dropSnapshot 100 6)
     = HealthStatusUnhealthy
  /\ DropRate (dropSnapshot 100 2) = 2%float
  /\ determineStatus DefaultHealthCheckConfig (dropSnapshot 100 2)
     = HealthStatusDegraded
  /\ DropRate (dropSnapshot 1000 1) = 0.1%float
  /\ ErrorRate (dropSnapshot 1000 1) = 0%float
  /\ determineStatus DefaultHealthCheckConfig (dropSnapshot 1000 1)
     = HealthStatusHealthy.
Proof. vm_compute. repeat split; reflexivity. Qed.

End HealthFacts.

(** ** The latency buffer *)

Section BufferFacts.
Import GoNum observability.

Lemma copy_shift_left (buf : list Z) :
  copy buf (drop 1 buf) = drop 1 buf ++ drop (length buf - 1) buf.
Proof.
  unfold copy. rewrite length_drop.
  rewrite take_ge by (rewrite length_drop; lia). reflexivity.
Qed.

(** One recording on a buffer within its capacity: no panic; a full buffer
    loses its first element, and the new sample goes last. *)
Lemma RecordProcessingTime_fifo (d : Z) (m : Metrics) :
  1 <= maxSamples m ->
  Z.of_nat (length (processingTimes m)) <= maxSamples m ->
  RecordProcessingTime d m =
    Some (set_processingTimes m
            ((if maxSamples m <=? Z.of_nat (length (processingTimes m))
              then drop 1 (processingTimes m) else processingTimes m) ++ [d])).
Proof.
  intros Hcap Hlen. unfold RecordProcessingTime.
  destruct (maxSamples m <=? Z.of_nat (length (processingTimes m))) eqn:Hfull;
    [|reflexivity].
  apply Z.leb_le in Hfull.
  assert ((maxSamples m - 1 <? 0) = false) as -> by (apply Z.ltb_ge; lia).
  rewrite copy_shift_left.
  rewrite take_app_le by (rewrite length_drop; lia).
  rewrite take_ge by (rewrite length_drop; lia). reflexivity.
Qed.

Lemma RecordProcessingTimes_last (ds : list Z) : forall m : Metrics,
  1 <= maxSamples m ->
  Z.of_nat (length (processingTimes m)) <= maxSamples m ->
  RecordProcessingTimes ds m =
    Some (set_processingTimes m
            (drop (length (processingTimes m ++ ds) - Z.to_nat (maxSamples m))
                  (processingTimes m ++ ds))).
Proof.
  induction ds as [|d rest IH]; intros m Hcap Hlen; simpl.
  - rewrite app_nil_r.
    replace (length (processingTimes m) - Z.to_nat (maxSamples m))%nat
      with 0%nat by lia.
    rewrite drop_0. now destruct m.
  - rewrite RecordProcessingTime_fifo by assumption.
    destruct (maxSamples m <=? Z.of_nat (length (processingTimes m))) eqn:Hfull.
    + apply Z.leb_le in Hfull.
      rewrite IH; simpl; [|exact Hcap|rewrite length_app, length_drop; simpl; lia].
      f_equal. f_equal.
      destruct (processingTimes m) as [|x buf] eqn:Hbuf; [simpl in *; lia|].
      change (drop 1 (x :: buf)) with buf.
      replace ((x :: buf) ++ d :: rest) with (x :: (buf ++ [d]) ++ rest)
        by (simpl; now rewrite <- app_assoc).
      replace (length (x :: (buf ++ [d]) ++ rest) - Z.to_nat (maxSamples m))%nat
        with (S (length ((buf ++ [d]) ++ rest) - Z.to_nat (maxSamples m)))
        by (simpl in *; rewrite !length_app; simpl; lia).
      reflexivity.
    + apply Z.leb_gt in Hfull.
      rewrite IH; simpl; [|exact Hcap|rewrite length_app; simpl; lia].
      now rewrite <- app_assoc.
Qed.

(** C6.  From an empty buffer of capacity [c >= 1] (1000 for [NewMetrics]),
    any sequence of recordings succeeds and leaves in the buffer the last
    [c] recorded samples in recording order, so its length never exceeds
    [c]; a recording on a full buffer drops the first element and appends;
    after [c+1] distinct recordings the first one is gone. *)
Theorem latency_buffer_bounded_fifo (c : Z) (Hc : 1 <= c) :
  NewMetrics = emptyMetrics 1000
  /\ (forall ds : list Z,
        exists m, RecordProcessingTimes ds (emptyMetrics c) = Some m
          /\ maxSamples m = c
          /\ processingTimes m = drop (length ds - Z.to_nat c) ds
          /\ Z.of_nat (length (processingTimes m)) <= c)
  /\ (forall (d : Z) (m : Metrics),
        maxSamples m = c -> Z.of_nat (length (processingTimes m)) = c ->
        exists m', RecordProcessingTime d m = Some m'
          /\ processingTimes m' = drop 1 (processingTimes m) ++ [d])
  /\ (forall (first : Z) (rest : list Z),
        NoDup (first :: rest) -> Z.of_nat (length rest) = c ->
        exists m, RecordProcessingTimes (first :: rest) (emptyMetrics c) = Some m
          /\ processingTimes m = rest /\ first ∉ processingTimes m).
Proof.
  split; [reflexivity|]. split; [|split].
  - intros ds. eexists. split.
    + apply RecordProcessingTimes_last; simpl; lia.
    + simpl. split; [reflexivity|]. split; [reflexivity|].
      rewrite length_drop. lia.
  - intros d m Hm Hlen. eexists. split.
    + apply RecordProcessingTime_fifo; lia.
    + simpl. assert ((maxSamples m <=? Z.of_nat (length (processingTimes m))) = true)
        as -> by (apply Z.leb_le; lia).
      reflexivity.
  - intros first rest Hnd Hlen. eexists. split.
    + apply RecordProcessingTimes_last; simpl; lia.
    + simpl.
      replace (S (length rest) - Z.to_nat c)%nat with 1%nat by lia.
      simpl. rewrite drop_0. split; [reflexivity|].
      now apply NoDup_cons in Hnd as [Hnotin _].
Qed.

Lemma latency_buffer_bounded_fifo_witness :
  exists m, RecordProcessingTimes [10; 20; 30; 40] (emptyMetrics 3) = Some m
    /\ processingTimes m = [20; 30; 40] /\ 10 ∉ processingTimes m.
Proof.
  refine (proj2 (proj2 (proj2
    (latency_buffer_bounded_fifo 3 _))) 10 [20; 30; 40] _ eq_refl).
  - lia.
  - compute_done.
Defined.

End BufferFacts.

(** ** Percentiles *)

Section PercentileFacts.
Import GoNum observability.

Lemma lookup_at_length (l1 l2 : list Z) (x : Z) :
  (l1 ++ x :: l2) !! length l1 = Some x.
Proof. now apply list_lookup_middle. Qed.

Lemma insert_at_length (l1 l2 : list Z) (x v : Z) :
  <[length l1 := v]> (l1 ++ x :: l2) = l1 ++ v :: l2.
Proof.
  replace (length l1) with (length l1 + 0)%nat by lia.
  now rewrite insert_app_r.
Qed.

Lemma write_same (mem : memory) (a : array) (l : list Z) :
  write mem a l a = l.
Proof. unfold write. now destruct a. Qed.

Lemma write_other (mem : memory) (a b : array) (l : list Z) :
  b <> a -> write mem a l b = mem b.
Proof. unfold write. destruct a, b; simpl; congruence. Qed.

Lemma swap_if_greater_at (a : array) (mem : memory) (pre done t : list Z)
    (x y : Z) :
  mem a = pre ++ x :: done ++ y :: t ->
  swap_if_greater a (length pre) (length (pre ++ x :: done)) mem a
  = (if y <? x then pre ++ y :: done ++ x :: t
     else pre ++ x :: done ++ y :: t)
  /\ forall b, b <> a ->
       swap_if_greater a (length pre) (length (pre ++ x :: done)) mem b = mem b.
Proof.
  intros Hmem.
  assert (mem a !! length pre = Some x) as Hi
    by (rewrite Hmem; apply lookup_at_length).
  assert (mem a !! length (pre ++ x :: done) = Some y) as Hj.
  { rewrite Hmem.
    replace (pre ++ x :: done ++ y :: t) with ((pre ++ x :: done) ++ y :: t)
      by now rewrite <- app_assoc.
    apply lookup_at_length. }
  unfold swap_if_greater. rewrite Hi, Hj.
  destruct (y <? x); [|split; [exact Hmem|reflexivity]].
  split; [|intros b Hb; now apply write_other].
  rewrite write_same, Hmem, insert_at_length.
  assert (pre ++ y :: done ++ y :: t = (pre ++ y :: done) ++ y :: t) as E2
    by now rewrite <- app_assoc.
  rewrite E2.
  replace (length (pre ++ x :: done)) with (length (pre ++ y :: done))
    by (rewrite !length_app; reflexivity).
  rewrite insert_at_length. now rewrite <- app_assoc.
Qed.

Lemma inner_loop_sweep (a : array) (todo : list Z) :
  forall (fuel : nat) (mem : memory) (pre done : list Z) (x : Z),
    mem a = pre ++ x :: done ++ todo ->
    (length todo <= fuel)%nat ->
    inner_loop fuel a (length pre) (length (pre ++ x :: done)) mem a
    = pre ++ fst (sweep x todo) :: done ++ snd (sweep x todo)
    /\ forall b, b <> a ->
         inner_loop fuel a (length pre) (length (pre ++ x :: done)) mem b
         = mem b.
Proof.
  induction todo as [|y t IH]; intros fuel mem pre done x Hmem Hfuel.
  - simpl. destruct fuel as [|fuel]; [now split|]. simpl inner_loop.
    assert ((length (pre ++ x :: done) <? length (mem a))%nat = false) as ->.
    { apply Nat.ltb_ge. rewrite Hmem, !length_app. simpl.
      rewrite length_app. simpl. lia. }
    now split.
  - destruct fuel as [|fuel]; [simpl in Hfuel; lia|]. simpl in Hfuel.
    simpl inner_loop.
    assert ((length (pre ++ x :: done) <? length (mem a))%nat = true) as ->.
    { apply Nat.ltb_lt. rewrite Hmem, !length_app. simpl.
      rewrite length_app. simpl. lia. }
    destruct (swap_if_greater_at a mem pre done t x y Hmem) as [Hswap Hrest].
    set (mem' := swap_if_greater a (length pre) (length (pre ++ x :: done)) mem)
      in *.
    simpl sweep. destruct (y <? x).
    + replace (S (length (pre ++ x :: done)))
        with (length (pre ++ y :: done ++ [x]))
        by (rewrite !length_app; simpl; rewrite length_app; simpl; lia).
      destruct (IH fuel mem' pre (done ++ [x]) y) as [E Eo];
        [rewrite Hswap; now rewrite <- app_assoc|lia|].
      split.
      * rewrite E. destruct (sweep y t) as [m t']. simpl.
        now rewrite <- app_assoc.
      * intros b Hb. rewrite Eo by exact Hb. now apply Hrest.
    + replace (S (length (pre ++ x :: done)))
        with (length (pre ++ x :: done ++ [y]))
        by (rewrite !length_app; simpl; rewrite length_app; simpl; lia).
      destruct (IH fuel mem' pre (done ++ [y]) x) as [E Eo];
        [rewrite Hswap; now rewrite <- app_assoc|lia|].
      split.
      * rewrite E. destruct (sweep x t) as [m t']. simpl.
        now rewrite <- app_assoc.
      * intros b Hb. rewrite Eo by exact Hb. now apply Hrest.
Qed.

Lemma sweep_spec (todo : list Z) : forall x : Z,
  fst (sweep x todo) :: snd (sweep x todo) ≡ₚ x :: todo
  /\ Forall (fun y => fst (sweep x todo) <= y) (snd (sweep x todo))
  /\ fst (sweep x todo) <= x.
Proof.
  induction todo as [|y t IH]; intros x; simpl.
  - split; [reflexivity|]. split; [constructor|lia].
  - destruct (y <? x) eqn:Hyx.
    + destruct (IH y) as (Hp & Hall & Hle).
      destruct (sweep y t) as [m t']. simpl in *.
      apply Z.ltb_lt in Hyx. split; [|split; [|lia]].
      * rewrite (Permutation_swap x m t'), Hp. reflexivity.
      * constructor; [lia|exact Hall].
    + destruct (IH x) as (Hp & Hall & Hle).
      destruct (sweep x t) as [m t']. simpl in *.
      apply Z.ltb_ge in Hyx. split; [|split; [|lia]].
      * rewrite (Permutation_swap y m t'), Hp. apply Permutation_swap.
      * constructor; [lia|exact Hall].
Qed.

Lemma outer_loop_sorts (a : array) (fuel : nat) :
  forall (mem : memory) (pre suf : list Z),
    mem a = pre ++ suf -> (length suf <= fuel)%nat ->
    exists suf', outer_loop fuel a (length pre) mem a = pre ++ suf'
      /\ suf' ≡ₚ suf /\ StronglySorted Z.le suf'
      /\ forall b, b <> a -> outer_loop fuel a (length pre) mem b = mem b.
Proof.
  induction fuel as [|fuel IH]; intros mem pre suf Hmem Hfuel.
  - destruct suf; [|simpl in Hfuel; lia]. exists []. simpl.
    split; [exact Hmem|]. split; [reflexivity|]. split; [constructor|auto].
  - destruct suf as [|x t].
    + exists []. simpl.
      assert ((length pre <? length (mem a))%nat = false) as ->
        by (apply Nat.ltb_ge; rewrite Hmem, length_app; simpl; lia).
      split; [exact Hmem|]. split; [reflexivity|]. split; [constructor|auto].
    + simpl in Hfuel. simpl outer_loop.
      assert ((length pre <? length (mem a))%nat = true) as ->
        by (apply Nat.ltb_lt; rewrite Hmem, length_app; simpl; lia).
      destruct (inner_loop_sweep a t (length (mem a)) mem pre [] x) as [E Eo];
        [exact Hmem|rewrite Hmem, length_app; simpl; lia|].
      replace (length (pre ++ [x])) with (S (length pre)) in E, Eo
        by (rewrite length_app; simpl; lia).
      set (mem' := inner_loop (length (mem a)) a (length pre) (S (length pre))
                              mem) in *.
      destruct (sweep_spec t x) as (Hp & Hall & _).
      destruct (sweep x t) as [m t']. simpl in *.
      replace (S (length pre)) with (length (pre ++ [m]))
        by (rewrite length_app; simpl; lia).
      destruct (IH mem' (pre ++ [m]) t') as (t'' & Heq & Hp' & Hs & Ho).
      { rewrite E. now rewrite <- app_assoc. }
      { apply Permutation_length in Hp. simpl in Hp. lia. }
      exists (m :: t''). split; [rewrite Heq; now rewrite <- app_assoc|].
      split; [now rewrite Hp', Hp|].
      split; [constructor; [exact Hs|now rewrite Hp']|].
      intros b Hb. rewrite Ho by exact Hb. now apply Eo.
Qed.

(** The nested loops sort the array they are given, in place, and write to
    no other array. *)
Lemma simple_sort_sorted (a : array) (mem : memory) :
  simple_sort a mem a ≡ₚ mem a
  /\ StronglySorted Z.le (simple_sort a mem a)
  /\ forall b, b <> a -> simple_sort a mem b = mem b.
Proof.
  destruct (outer_loop_sorts a (length (mem a)) mem [] (mem a) eq_refl
              (le_n _)) as (s & E & Hp & Hs & Ho).
  unfold simple_sort. simpl in E, Ho. rewrite E. auto.
Qed.

Lemma set_processingTimes_same (m : Metrics) :
  set_processingTimes m (processingTimes m) = m.
Proof. now destruct m. Qed.

Lemma copy_into_fresh (buf : list Z) :
  copy (replicate (length buf) 0) buf = buf.
Proof.
  unfold copy. rewrite length_replicate, firstn_all, drop_replicate.
  rewrite Nat.sub_diag. apply app_nil_r.
Qed.

(** Up to the capacity 1000 the float products truncate to the exact
    integer parts of 0.95*len and 0.99*len. *)
Lemma percentile_index_exact (n : nat) :
  (n <= 1000)%nat ->
  p95_index (Z.of_nat n) = Z.of_nat n * 95 / 100
  /\ p99_index (Z.of_nat n) = Z.of_nat n * 99 / 100.
Proof.
  intros Hn.
  assert (forallb (fun k => (p95_index (Z.of_nat k) =? Z.of_nat k * 95 / 100)
                            && (p99_index (Z.of_nat k) =? Z.of_nat k * 99 / 100))
                  (seq 0 1001) = true) as Hall by (vm_compute; reflexivity).
  rewrite forallb_forall in Hall.
  specialize (Hall n). rewrite andb_true_iff, !Z.eqb_eq in Hall.
  apply Hall, in_seq. lia.
Qed.

(** C5.  [Snapshot] returns the counters; for an empty buffer the three
    percentiles are 0; otherwise, up to the capacity 1000, they are the
    elements at ranks [len/2], [floor(len*0.95)] and [floor(len*0.99)] of the
    ascending rearrangement of the buffer (so each is a recorded sample, not
    an interpolation); the loops write only to the copy, and the metrics,
    with the live buffer, is left as it was. *)
Theorem Snapshot_percentiles (m : Metrics) :
  let buf := processingTimes m in
  let n := Z.of_nat (length buf) in
  (buf = [] -> Snapshot m = Some (snapshotOf m 0 0 0, m))
  /\ (buf <> [] -> n <= 1000 ->
      exists sorted p50 p95 p99,
        sorted ≡ₚ buf /\ StronglySorted Z.le sorted
        /\ sorted !! Z.to_nat (n / 2) = Some p50
        /\ sorted !! Z.to_nat (n * 95 / 100) = Some p95
        /\ sorted !! Z.to_nat (n * 99 / 100) = Some p99
        /\ (p50 ∈ buf /\ p95 ∈ buf /\ p99 ∈ buf)
        /\ Snapshot m = Some (snapshotOf m p50 p95 p99, m)).
Proof.
  cbv zeta. split.
  - intros Hempty. unfold Snapshot. rewrite Hempty. simpl.
    rewrite <- Hempty. now rewrite set_processingTimes_same.
  - intros Hne Hcap.
    set (mem0 := fun a => match a with
                          | live => processingTimes m
                          | fresh => []
                          end).
    set (mem2 := write (write mem0 fresh
                              (replicate (length (processingTimes m)) 0))
                       fresh (processingTimes m)).
    destruct (simple_sort_sorted fresh mem2) as (Hperm & Hsorted & Hother).
    assert (mem2 fresh = processingTimes m) as Hm2 by apply write_same.
    assert (simple_sort fresh mem2 live = processingTimes m) as Hlive
      by (rewrite Hother by discriminate; reflexivity).
    rewrite Hm2 in Hperm.
    pose proof (Permutation_length Hperm) as Hlen.
    assert (0 < length (processingTimes m))%nat as Hpos
      by (destruct (processingTimes m); [congruence|simpl; lia]).
    destruct (percentile_index_exact (length (processingTimes m))) as [E95 E99];
      [lia|].
    set (n := Z.of_nat (length (processingTimes m))) in *.
    assert (forall k, 0 <= k < n ->
              exists v, simple_sort fresh mem2 fresh !! Z.to_nat k = Some v)
      as Hget.
    { intros k Hk. apply lookup_lt_is_Some. rewrite Hlen. lia. }
    destruct (Hget (n / 2)) as [p50 H50];
      [split; [apply Z.div_pos; lia|apply Z.div_lt_upper_bound; lia]|].
    destruct (Hget (n * 95 / 100)) as [p95 H95];
      [split; [apply Z.div_pos; lia|apply Z.div_lt_upper_bound; lia]|].
    destruct (Hget (n * 99 / 100)) as [p99 H99];
      [split; [apply Z.div_pos; lia|apply Z.div_lt_upper_bound; lia]|].
    exists (simple_sort fresh mem2 fresh), p50, p95, p99.
    split; [exact Hperm|]. split; [exact Hsorted|].
    split; [exact H50|]. split; [exact H95|]. split; [exact H99|].
    split.
    + rewrite <- !Hperm. repeat split; apply list_elem_of_lookup; eauto.
    + unfold Snapshot. fold mem0.
      change (mem0 live) with (processingTimes m).
      assert ((0 <? length (processingTimes m))%nat = true) as ->
        by now apply Nat.ltb_lt.
      rewrite write_same.
      change (write mem0 fresh (replicate (length (processingTimes m)) 0) live)
        with (processingTimes m).
      rewrite copy_into_fresh. fold mem2. fold n. rewrite E95, E99, Hlive.
      unfold index.
      assert ((n / 2 <? 0) = false) as ->
        by (apply Z.ltb_ge, Z.div_pos; lia).
      assert ((n * 95 / 100 <? 0) = false) as ->
        by (apply Z.ltb_ge, Z.div_pos; lia).
      assert ((n * 99 / 100 <? 0) = false) as ->
        by (apply Z.ltb_ge, Z.div_pos; lia).
      rewrite H50, H95, H99. now rewrite set_processingTimes_same.
Qed.

(** The four samples of the latency test, in milliseconds. *)
Lemma Snapshot_percentiles_example :
  Snapshot (set_processingTimes NewMetrics [10; 20; 30; 100])
  = Some (snapshotOf NewMetrics 30 100 100,
          set_processingTimes NewMetrics [10; 20; 30; 100])
  /\ Snapshot (set_processingTimes NewMetrics [100; 30; 10; 20; 50])
     = Some (snapshotOf NewMetrics 30 100 100,
             set_processingTimes NewMetrics [100; 30; 10; 20; 50]).
Proof. vm_compute. split; reflexivity. Qed.

End PercentileFacts.

(** ** Batching *)

Section BatchFacts.
Import model batch.

Lemma step_returned (p : BatchProcessor) (st : state) (e : event) :
  returned st = true -> step p st e = st.
Proof. intros H. unfold step. now rewrite H. Qed.

Lemma run_returned (p : BatchProcessor) (events : list event) :
  forall st, returned st = true -> fold_left (step p) events st = st.
Proof.
  induction events as [|e rest IH]; intros st H; simpl; [reflexivity|].
  rewrite step_returned by exact H. now apply IH.
Qed.

Lemma step_Recv (p : BatchProcessor) (st : state) (span : Span) :
  returned st = false ->
  step p st (Recv span None) =
    if sendBatchSize p <=? Z.of_nat (length (batch st)) + 1
    then {| batch := []; sent := sent st ++ [batch st ++ [span]];
            returned := false |}
    else {| batch := batch st ++ [span]; sent := sent st; returned := false |}.
Proof.
  intros H. unfold step. rewrite H. simpl. rewrite length_app. simpl.
  replace (Z.of_nat (length (batch st) + 1)) with (Z.of_nat (length (batch st)) + 1)
    by lia.
  destruct (sendBatchSize p <=? _); reflexivity.
Qed.

Lemma step_Tick (p : BatchProcessor) (st : state) :
  returned st = false ->
  step p st (Tick None) =
    match batch st with
    | [] => st
    | _ :: _ => {| batch := []; sent := sent st ++ [batch st];
                   returned := false |}
    end.
Proof.
  intros H. unfold step. rewrite H.
  destruct (batch st) eqn:E; simpl; [reflexivity|].
  unfold flush. now rewrite E, H.
Qed.

Lemma step_InClosed (p : BatchProcessor) (st : state) :
  returned st = false ->
  step p st (InClosed None) =
    match batch st with
    | [] => {| batch := []; sent := sent st; returned := true |}
    | _ :: _ => {| batch := []; sent := sent st ++ [batch st];
                   returned := true |}
    end.
Proof.
  intros H. unfold step. rewrite H.
  destruct (batch st) eqn:E; simpl; unfold stop; simpl; now rewrite ?E.
Qed.

Lemma output_app (st : state) (l : list Span) :
  concat (sent st ++ [l]) = output st ++ l.
Proof. unfold output. now rewrite concat_app, (concat_cons l), app_nil_r. Qed.

(** While the input is open and nothing is cancelled, what was sent followed
    by what is buffered is what was received, in arrival order. *)
Lemma run_quiet_order (p : BatchProcessor) (events : list event) :
  forall st, forallb quiet events = true -> returned st = false ->
    returned (fold_left (step p) events st) = false
    /\ output (fold_left (step p) events st)
         ++ batch (fold_left (step p) events st)
       = output st ++ batch st ++ received events.
Proof.
  induction events as [|e rest IH]; intros st Hq Hr; simpl.
  - split; [exact Hr|]. now rewrite app_nil_r.
  - simpl in Hq. apply andb_true_iff in Hq as [He Hrest].
    destruct e as [span [k|]|cut|[k|]|]; try discriminate.
    + rewrite step_Recv by exact Hr.
      destruct (sendBatchSize p <=? _).
      * destruct (IH {| batch := []; sent := sent st ++ [batch st ++ [span]];
                        returned := false |} Hrest eq_refl) as [R E].
        split; [exact R|]. rewrite E. unfold output at 1. simpl sent.
        rewrite output_app. simpl. rewrite <- !app_assoc. reflexivity.
      * destruct (IH {| batch := batch st ++ [span]; sent := sent st;
                        returned := false |} Hrest eq_refl) as [R E].
        split; [exact R|]. rewrite E. unfold output. simpl.
        rewrite <- !app_assoc. reflexivity.
    + rewrite step_Tick by exact Hr.
      destruct (batch st) as [|b bs] eqn:Eb.
      * destruct (IH st Hrest Hr) as [R E]. split; [exact R|].
        rewrite E, Eb. reflexivity.
      * destruct (IH {| batch := []; sent := sent st ++ [b :: bs];
                        returned := false |} Hrest eq_refl) as [R E].
        split; [exact R|]. rewrite E. unfold output at 1. simpl sent.
        rewrite output_app. simpl. rewrite <- !app_assoc. reflexivity.
Qed.

Lemma run_recvs_below (p : BatchProcessor) (spans : list Span) :
  forall st, returned st = false ->
    Z.of_nat (length (batch st) + length spans) < sendBatchSize p ->
    fold_left (step p) (recvs spans) st
    = {| batch := batch st ++ spans; sent := sent st; returned := false |}.
Proof.
  induction spans as [|s rest IH]; intros st Hr Hlen; simpl.
  - rewrite app_nil_r. destruct st; simpl in *. now subst.
  - rewrite step_Recv by exact Hr. simpl in Hlen.
    assert ((sendBatchSize p <=? Z.of_nat (length (batch st)) + 1) = false)
      as -> by (apply Z.leb_gt; lia).
    rewrite IH; simpl; [|reflexivity|rewrite length_app; simpl; lia].
    now rewrite <- app_assoc.
Qed.

Lemma run_recvs_fill (p : BatchProcessor) (spans : list Span) (s : Span) :
  forall st, returned st = false ->
    Z.of_nat (length (batch st) + length spans + 1) = sendBatchSize p ->
    fold_left (step p) (recvs (spans ++ [s])) st
    = {| batch := []; sent := sent st ++ [batch st ++ spans ++ [s]];
         returned := false |}.
Proof.
  intros st Hr Hlen. unfold recvs. rewrite map_app, fold_left_app.
  fold (recvs spans). rewrite (run_recvs_below p spans st Hr) by lia.
  simpl. rewrite step_Recv by reflexivity. simpl.
  assert ((sendBatchSize p <=? Z.of_nat (length (batch st ++ spans)) + 1) = true)
    as -> by (apply Z.leb_le; rewrite length_app; lia).
  now rewrite <- app_assoc.
Qed.

Lemma makechan_Some (rt : runtime) (size : Z) :
  0 <= size -> PtrSize * size < 2 ^ 64 ->
  PtrSize * size <= maxAlloc rt - hchanSize rt ->
  makechan rt size = Some (hchanSize rt + PtrSize * size).
Proof.
  intros H0 H1 H2. unfold makechan. cbv zeta.
  rewrite (proj2 (Z.ltb_ge size 0) H0).
  rewrite (proj2 (Z.leb_gt (2 ^ 64) (PtrSize * size)) H1).
  rewrite (proj2 (Z.ltb_ge (maxAlloc rt - hchanSize rt) (PtrSize * size)) H2).
  reflexivity.
Qed.

Lemma makeslice_Some (rt : runtime) (cap : Z) :
  0 <= cap -> PtrSize * cap < 2 ^ 64 -> PtrSize * cap <= maxAlloc rt ->
  makeslice rt cap = Some (PtrSize * cap).
Proof.
  intros H0 H1 H2. unfold makeslice. cbv zeta.
  rewrite (proj2 (Z.ltb_ge cap 0) H0).
  rewrite (proj2 (Z.leb_gt (2 ^ 64) (PtrSize * cap)) H1).
  rewrite (proj2 (Z.ltb_ge (maxAlloc rt) (PtrSize * cap)) H2).
  reflexivity.
Qed.

Lemma Process_valid (rt : runtime) (p : BatchProcessor)
    (events : list event) :
  starts rt p ->
  Process rt p events = Some (fold_left (step p) events init).
Proof.
  intros ((Hb0 & Hb1 & Hb2) & (Hs0 & Hs1 & Hs2) & Hm & Ht). unfold Process.
  rewrite (makechan_Some rt _ Hb0 Hb1 Hb2).
  rewrite (makeslice_Some rt _ Hs0 Hs1 Hs2).
  rewrite (proj2 (Z.ltb_ge (memory rt) _) Hm).
  rewrite (proj2 (Z.leb_gt (timeout p) 0) Ht).
  reflexivity.
Qed.

Lemma Process_starts (rt : runtime) (p : BatchProcessor)
    (events : list event) (st : state) :
  Process rt p events = Some st ->
  starts rt p /\ st = fold_left (step p) events init.
Proof.
  unfold Process, makechan, makeslice, starts. cbv zeta.
  destruct (batchSize p <? 0) eqn:B0; [discriminate|].
  destruct (2 ^ 64 <=? PtrSize * batchSize p) eqn:B1; [discriminate|].
  destruct (maxAlloc rt - hchanSize rt <? PtrSize * batchSize p) eqn:B2;
    [discriminate|].
  destruct (sendBatchSize p <? 0) eqn:S0; [discriminate|].
  destruct (2 ^ 64 <=? PtrSize * sendBatchSize p) eqn:S1; [discriminate|].
  destruct (maxAlloc rt <? PtrSize * sendBatchSize p) eqn:S2; [discriminate|].
  cbn [orb].
  destruct (memory rt <? _) eqn:M; [discriminate|].
  destruct (timeout p <=? 0) eqn:T; [discriminate|].
  cbn [orb]. intros [= <-].
  apply Z.ltb_ge in B0, B2, S0, S2, M. apply Z.leb_gt in B1, S1, T.
  tauto.
Qed.

Lemma run_1500 (p : BatchProcessor) (spans : list Span) :
  sendBatchSize p = 1024 -> length spans = 1500%nat ->
  fold_left (step p) (feed spans) init
  = {| batch := []; sent := [take 1024 spans; drop 1024 spans];
       returned := true |}.
Proof.
  intros Hsize Hlen.
  destruct (lookup_lt_is_Some_2 spans 1023) as [x Hx]; [lia|].
  pose proof (take_drop 1024 spans) as Hsplit.
  rewrite (take_S_r spans 1023 x Hx) in Hsplit.
  assert (length (take 1023 spans) = 1023%nat) as Hl1
    by (rewrite length_take; lia).
  assert (length (drop 1024 spans) = 476%nat) as Hl2
    by (rewrite length_drop; lia).
  rewrite (take_S_r spans 1023 x Hx).
  unfold feed. rewrite <- Hsplit at 1.
  rewrite map_app, !fold_left_app.
  fold (recvs (take 1023 spans ++ [x])). fold (recvs (drop 1024 spans)).
  rewrite (run_recvs_fill p (take 1023 spans) x init eq_refl)
    by (simpl; lia).
  rewrite run_recvs_below by (simpl; lia).
  cbn [fold_left]. rewrite step_InClosed by reflexivity.
  cbn [batch sent init app].
  destruct (drop 1024 spans) as [|y rest] eqn:Hd; [simpl in Hl2; lia|].
  reflexivity.
Qed.

(** C7.  Without cancellation: a received span is buffered and the buffer is
    flushed (sent in order, then cleared) as soon as it holds
    [sendBatchSize] spans; a tick flushes a non-empty buffer; closure of the
    input flushes what remains, once, and the stage returns, after which
    nothing more is sent.  Whatever the ticks, the output at closure is the
    input in arrival order.  1500 spans with [sendBatchSize] 1024 and no
    tick leave as the first 1024 in one flush, then the other 476 in the
    flush at closure. *)
Theorem batch_flush_by_size_timer_closure (rt : runtime)
    (p : BatchProcessor) (Hstarts : starts rt p) :
  (forall st span, returned st = false ->
     step p st (Recv span None) =
       if sendBatchSize p <=? Z.of_nat (length (batch st)) + 1
       then {| batch := []; sent := sent st ++ [batch st ++ [span]];
               returned := false |}
       else {| batch := batch st ++ [span]; sent := sent st;
               returned := false |})
  /\ (forall st, returned st = false ->
        step p st (Tick None) =
          match batch st with
          | [] => st
          | _ :: _ => {| batch := []; sent := sent st ++ [batch st];
                         returned := false |}
          end)
  /\ (forall st, returned st = false ->
        step p st (InClosed None) =
          match batch st with
          | [] => {| batch := []; sent := sent st; returned := true |}
          | _ :: _ => {| batch := []; sent := sent st ++ [batch st];
                         returned := true |}
          end)
  /\ (forall st events, returned st = true ->
        fold_left (step p) events st = st)
  /\ (forall events more, forallb quiet events = true ->
        exists st, Process rt p (events ++ InClosed None :: more) = Some st
          /\ returned st = true /\ batch st = []
          /\ output st = received events)
  /\ (sendBatchSize p = 1024 ->
      forall spans, length spans = 1500%nat ->
        Process rt p (feed spans) =
          Some {| batch := []; sent := [take 1024 spans; drop 1024 spans];
                  returned := true |}).
Proof.
  split; [intros; now apply step_Recv|].
  split; [intros; now apply step_Tick|].
  split; [intros; now apply step_InClosed|].
  split; [intros; now apply run_returned|].
  split.
  - intros events more Hq.
    rewrite Process_valid by assumption.
    rewrite fold_left_app. cbn [fold_left].
    destruct (run_quiet_order p events init Hq eq_refl) as [Hr Ho].
    set (st := fold_left (step p) events init) in *.
    rewrite step_InClosed by exact Hr.
    eexists. split; [apply f_equal, run_returned|].
    + now destruct (batch st).
    + simpl in Ho. destruct (batch st) as [|b bs];
        (split; [reflexivity|split; [reflexivity|]]).
      * rewrite app_nil_r in Ho. exact Ho.
      * unfold output at 1. simpl sent. rewrite output_app. exact Ho.
  - intros Hsize spans Hlen.
    rewrite Process_valid by assumption. f_equal. now apply run_1500.
Qed.

Lemma batch_flush_by_size_timer_closure_witness :
  Process linux64 DefaultBatchConfig (feed (replicate 1500 span_a)) =
    Some {| batch := [];
            sent := [take 1024 (replicate 1500 span_a);
                     drop 1024 (replicate 1500 span_a)];
            returned := true |}.
Proof.
  refine (proj2 (proj2 (proj2 (proj2 (proj2
    (batch_flush_by_size_timer_closure linux64 DefaultBatchConfig _)))))
    eq_refl (replicate 1500 span_a) _).
  - unfold starts. repeat split; vm_compute; (reflexivity || discriminate).
  - apply length_replicate.
Defined.

End BatchFacts.

(** ** Attribute rules *)

Section AttributeFacts.
Import model attributes.

Lemma findExisting_Some (key : string) (tags : list KeyValue) :
  forall i, findExisting key tags = Some i ->
    exists old, tags !! i = Some old /\ model.Key old = key
      /\ forall j other, (j < i)%nat -> tags !! j = Some other ->
           model.Key other <> key.
Proof.
  induction tags as [|t rest IH]; intros i H; simpl in H; [discriminate|].
  destruct (String.eqb (model.Key t) key) eqn:E.
  - injection H as <-. exists t. split; [reflexivity|].
    split; [now apply String.eqb_eq|]. intros j other Hj. lia.
  - destruct (findExisting key rest) as [k|]; [|discriminate].
    injection H as <-. destruct (IH k eq_refl) as (old & Hl & Hk & Hfirst).
    exists old. split; [exact Hl|]. split; [exact Hk|].
    intros [|j] other Hj Hlook; simpl in Hlook.
    + injection Hlook as <-. now apply String.eqb_neq.
    + apply (Hfirst j); [lia|exact Hlook].
Qed.

Lemma findExisting_None (key : string) (tags : list KeyValue) :
  findExisting key tags = None <->
  forall tag, tag ∈ tags -> model.Key tag <> key.
Proof.
  induction tags as [|t rest IH]; simpl.
  - split; [|reflexivity]. intros _ tag Hin. inversion Hin.
  - destruct (String.eqb (model.Key t) key) eqn:E.
    + split; [discriminate|]. intros H. apply String.eqb_eq in E.
      exfalso. apply (H t); [left|exact E].
    + destruct (findExisting key rest) as [k|]; simpl.
      * split; [discriminate|]. intros H.
        assert (@None nat = None) as Hn by reflexivity.
        destruct IH as [_ IH]. discriminate IH.
        intros tag Hin. apply H. now right.
      * split; [|reflexivity]. intros _ tag Hin.
        apply elem_of_cons in Hin as [->|Hin]; [now apply String.eqb_neq|].
        now apply IH.
Qed.

(** C10.  The tag an insert, update or upsert rule writes is
    [stringTag]: the rule's key, type string, the rule's value, every typed
    field zero.  A rule of these three kinds leaves at every index either
    the tag that was there or [stringTag]; update and upsert on a key that is
    present put [stringTag] in place of the first tag with that key, whatever
    its type and value were; insert and upsert on an absent key append it. *)
Theorem attribute_rules_write_string_tags (tags : list KeyValue)
    (action : AttributeAction) :
  stringTag action =
    {| model.Key := Key action; VType := StringType; VStr := Value action;
       VInt64 := 0; VFloat64 := 0%float; VBool := false; VBinary := [] |}
  /\ (writes action ->
      forall i kv, applyActionTags tags action !! i = Some kv ->
        kv = stringTag action \/ tags !! i = Some kv)
  /\ (Action action = Update \/ Action action = Upsert ->
      forall old, old ∈ tags -> model.Key old = Key action ->
        exists i first,
          tags !! i = Some first /\ model.Key first = Key action
          /\ (forall j other, (j < i)%nat -> tags !! j = Some other ->
                model.Key other <> Key action)
          /\ applyActionTags tags action = <[i := stringTag action]> tags
          /\ applyActionTags tags action !! i = Some (stringTag action))
  /\ (Action action = Insert \/ Action action = Upsert ->
      (forall tag, tag ∈ tags -> model.Key tag <> Key action) ->
      applyActionTags tags action = tags ++ [stringTag action]).
Proof.
  split; [reflexivity|]. split; [|split].
  - intros Hw i kv Hlook. unfold applyActionTags in Hlook.
    destruct Hw as [H|[H|H]]; rewrite H in Hlook; simpl in Hlook;
      destruct (findExisting (Key action) tags) as [k|] eqn:Hf;
      try (right; exact Hlook).
    + apply lookup_app_Some in Hlook as [Hl|[_ Hl]]; [now right|].
      left. apply list_lookup_singleton_Some in Hl as [_ <-]. reflexivity.
    + destruct (decide (i = k)) as [->|Hne].
      * apply findExisting_Some in Hf as (old & Hold & _).
        rewrite list_lookup_insert_eq in Hlook
          by (apply lookup_lt_is_Some; eauto).
        left. congruence.
      * rewrite list_lookup_insert_ne in Hlook by congruence. now right.
    + destruct (decide (i = k)) as [->|Hne].
      * apply findExisting_Some in Hf as (old & Hold & _).
        rewrite list_lookup_insert_eq in Hlook
          by (apply lookup_lt_is_Some; eauto).
        left. congruence.
      * rewrite list_lookup_insert_ne in Hlook by congruence. now right.
    + apply lookup_app_Some in Hlook as [Hl|[_ Hl]]; [now right|].
      left. apply list_lookup_singleton_Some in Hl as [_ <-]. reflexivity.
  - intros Hw old Hin Hkey.
    destruct (findExisting (Key action) tags) as [k|] eqn:Hf.
    + destruct (findExisting_Some _ _ _ Hf) as (first & Hl & Hk & Hfirst).
      exists k, first. split; [exact Hl|]. split; [exact Hk|].
      split; [exact Hfirst|].
      assert (applyActionTags tags action = <[k := stringTag action]> tags)
        as ->.
      { unfold applyActionTags. rewrite Hf.
        destruct Hw as [H|H]; rewrite H; reflexivity. }
      split; [reflexivity|].
      apply list_lookup_insert_eq, lookup_lt_is_Some. eauto.
    + exfalso. exact (proj1 (findExisting_None _ _) Hf old Hin Hkey).
  - intros Hw Habsent.
    unfold applyActionTags. rewrite (proj2 (findExisting_None _ _) Habsent).
    destruct Hw as [H|H]; rewrite H; reflexivity.
Qed.

(** An upsert on an integer tag leaves a string tag; the 200 is gone. *)
Lemma upsert_discards_typed_value :
  applyActionTags [statusTag] overwriteStatus
  = [ {| model.Key := "http.status_code"; VType := StringType; VStr := "ok";
         VInt64 := 0; VFloat64 := 0%float; VBool := false; VBinary := [] |} ].
Proof. reflexivity. Qed.

End AttributeFacts.

(** * Further properties *)

From stdpp Require Import sorting.

Local Open Scope Z_scope.

(** ** Attribute rules, by the position of the first matching tag *)

Section MoreAttributeFacts.
Import GoNum model sampling attributes.

Lemma findExisting_at_first (key : string) (pre post : list KeyValue)
    (t : KeyValue) :
  (forall x, x ∈ pre -> model.Key x <> key) -> model.Key t = key ->
  findExisting key (pre ++ t :: post) = Some (length pre).
Proof.
  intros Hpre Ht. induction pre as [|x pre IH]; simpl.
  - apply String.eqb_eq in Ht. now rewrite Ht.
  - assert (String.eqb (model.Key x) key = false) as ->
      by (apply String.eqb_neq, Hpre; left).
    rewrite IH; [reflexivity|]. intros y Hy. apply Hpre. now right.
Qed.

Lemma findExisting_split (key : string) (tags : list KeyValue) :
  (forall x, x ∈ tags -> model.Key x <> key)
  \/ exists pre t post, tags = pre ++ t :: post /\ model.Key t = key
       /\ forall x, x ∈ pre -> model.Key x <> key.
Proof.
  induction tags as [|x rest IH].
  - left. intros x Hx. inversion Hx.
  - destruct (String.eqb (model.Key x) key) eqn:E.
    + right. exists [], x, rest. split; [reflexivity|].
      split; [now apply String.eqb_eq|]. intros y Hy. inversion Hy.
    + apply String.eqb_neq in E. destruct IH as [Hno|(pre & t & post & -> & Ht & Hpre)].
      * left. intros y Hy. apply elem_of_cons in Hy as [->|Hy]; auto.
      * right. exists (x :: pre), t, post. split; [reflexivity|].
        split; [exact Ht|]. intros y Hy.
        apply elem_of_cons in Hy as [->|Hy]; auto.
Qed.

Lemma kind_cases (k : ActionType) :
  k = Insert \/ k = Update \/ k = Upsert \/ k = Delete
  \/ (String.eqb k Insert = false /\ String.eqb k Update = false
      /\ String.eqb k Upsert = false /\ String.eqb k Delete = false).
Proof.
  destruct (String.eqb_spec k Insert); [tauto|].
  destruct (String.eqb_spec k Update); [tauto|].
  destruct (String.eqb_spec k Upsert); [tauto|].
  destruct (String.eqb_spec k Delete); [tauto|].
  repeat right. repeat split; reflexivity.
Qed.

Ltac by_kind action :=
  destruct (kind_cases (Action action))
    as [Hk|[Hk|[Hk|[Hk|(Hk1 & Hk2 & Hk3 & Hk4)]]]];
  [rewrite !Hk in *|rewrite !Hk in *|rewrite !Hk in *|rewrite !Hk in *
  |rewrite ?Hk1, ?Hk2, ?Hk3, ?Hk4 in *]; simpl.

Lemma applyActionTags_absent (tags : list KeyValue) (action : AttributeAction) :
  (forall x, x ∈ tags -> model.Key x <> Key action) ->
  applyActionTags tags action =
    if String.eqb (Action action) Insert || String.eqb (Action action) Upsert
    then tags ++ [stringTag action] else tags.
Proof.
  intros Hno. unfold applyActionTags.
  rewrite (proj2 (findExisting_None _ _) Hno).
  by_kind action; reflexivity.
Qed.

Lemma applyActionTags_present (pre post : list KeyValue) (t : KeyValue)
    (action : AttributeAction) :
  (forall x, x ∈ pre -> model.Key x <> Key action) ->
  model.Key t = Key action ->
  applyActionTags (pre ++ t :: post) action =
    if String.eqb (Action action) Insert then pre ++ t :: post
    else if String.eqb (Action action) Update
            || String.eqb (Action action) Upsert
    then pre ++ stringTag action :: post
    else if String.eqb (Action action) Delete then pre ++ post
    else pre ++ t :: post.
Proof.
  intros Hpre Ht. unfold applyActionTags.
  rewrite (findExisting_at_first _ pre post t Hpre Ht).
  assert (<[length pre := stringTag action]> (pre ++ t :: post)
          = pre ++ stringTag action :: post) as Hins.
  { replace (length pre) with (length pre + 0)%nat by lia.
    now rewrite insert_app_r. }
  assert (take (length pre) (pre ++ t :: post)
          ++ drop (S (length pre)) (pre ++ t :: post) = pre ++ post) as Hdel.
  { rewrite take_app_length.
    replace (S (length pre)) with (length (pre ++ [t]))
      by (rewrite length_app; simpl; lia).
    replace (pre ++ t :: post) with ((pre ++ [t]) ++ post)
      by now rewrite <- app_assoc.
    now rewrite drop_app_length. }
  rewrite Hins, Hdel. by_kind action; reflexivity.
Qed.

(** X1.  A delete rule removes the first tag with its key and nothing else:
    the tags before and after it, later tags with the same key among them,
    stay in order; when no tag has the key the list is unchanged. *)
Theorem delete_removes_first_match (tags : list KeyValue)
    (action : AttributeAction) (Hdelete : Action action = Delete) :
  ((forall x, x ∈ tags -> model.Key x <> Key action) ->
   applyActionTags tags action = tags)
  /\ (forall pre t post,
        tags = pre ++ t :: post -> model.Key t = Key action ->
        (forall x, x ∈ pre -> model.Key x <> Key action) ->
        applyActionTags tags action = pre ++ post).
Proof.
  split.
  - intros Hno. rewrite applyActionTags_absent by exact Hno.
    now rewrite Hdelete.
  - intros pre t post -> Ht Hpre.
    rewrite applyActionTags_present by assumption. now rewrite Hdelete.
Qed.

Lemma delete_removes_first_match_witness :
  applyActionTags [plainTag "a" "1"; plainTag "env" "x"; plainTag "env" "y"]
                  (envRule Delete)
  = [plainTag "a" "1"; plainTag "env" "y"].
Proof.
  refine (proj2 (delete_removes_first_match _ (envRule Delete) eq_refl)
            [plainTag "a" "1"] (plainTag "env" "x") [plainTag "env" "y"]
            eq_refl eq_refl _).
  intros x Hx. apply list_elem_of_singleton in Hx as ->. discriminate.
Defined.

Lemma otherKeys_absent (key : string) (tags : list KeyValue) :
  (forall x, x ∈ tags -> model.Key x <> key) -> otherKeys key tags = tags.
Proof.
  intros Hno. unfold otherKeys. induction tags as [|x rest IH]; [reflexivity|].
  rewrite filter_cons_True by (apply Hno; left).
  f_equal. apply IH. intros y Hy. apply Hno. now right.
Qed.

Lemma otherKeys_middle (key : string) (pre post : list KeyValue)
    (t : KeyValue) :
  model.Key t = key ->
  otherKeys key (pre ++ t :: post) = otherKeys key pre ++ otherKeys key post.
Proof.
  intros Ht. unfold otherKeys. rewrite filter_app.
  rewrite filter_cons_False by (intros H; now apply H). reflexivity.
Qed.

(** X2.  Whatever the rule (any action string), the tags with other keys
    are untouched: they are the same, in the same order, after the rule. *)
Theorem rule_leaves_other_keys (tags : list KeyValue)
    (action : AttributeAction) :
  otherKeys (Key action) (applyActionTags tags action)
  = otherKeys (Key action) tags.
Proof.
  destruct (findExisting_split (Key action) tags)
    as [Hno|(pre & t & post & -> & Ht & Hpre)].
  - rewrite applyActionTags_absent by exact Hno.
    destruct (_ || _); [|reflexivity].
    unfold otherKeys. rewrite filter_app.
    rewrite (filter_cons_False _ (stringTag action))
      by (intros H; now apply H).
    now rewrite filter_nil, app_nil_r.
  - rewrite applyActionTags_present by assumption.
    assert (otherKeys (Key action) (pre ++ post)
            = otherKeys (Key action) pre ++ otherKeys (Key action) post)
      as Hdel by apply filter_app.
    by_kind action;
      rewrite ?otherKeys_middle by (first [exact Ht|reflexivity]); auto.
Qed.

(** X3.  Every rule but delete is idempotent: applying it a second time
    changes nothing. *)
Theorem non_delete_rule_idempotent (tags : list KeyValue)
    (action : AttributeAction) (Hkind : Action action <> Delete) :
  applyActionTags (applyActionTags tags action) action
  = applyActionTags tags action.
Proof.
  destruct (findExisting_split (Key action) tags)
    as [Hno|(pre & t & post & -> & Ht & Hpre)].
  - rewrite (applyActionTags_absent tags) by exact Hno.
    pose proof (applyActionTags_present tags [] (stringTag action) action
                  Hno eq_refl) as Hagain.
    pose proof (applyActionTags_absent tags action Hno) as Hsame.
    by_kind action; try congruence; simpl in *; congruence.
  - rewrite (applyActionTags_present pre post t) by assumption.
    pose proof (applyActionTags_present pre post t action Hpre Ht) as Hsame.
    pose proof (applyActionTags_present pre post (stringTag action) action
                  Hpre eq_refl) as Hagain.
    by_kind action; try congruence; simpl in *; congruence.
Qed.

Lemma non_delete_rule_idempotent_witness :
  applyActionTags (applyActionTags [plainTag "a" "1"] (envRule Upsert))
                  (envRule Upsert)
  = applyActionTags [plainTag "a" "1"] (envRule Upsert).
Proof.
  apply (non_delete_rule_idempotent [plainTag "a" "1"] (envRule Upsert)).
  discriminate.
Defined.

(** X4.  What the search at the head of [applyAction] finds after a rule:
    after an upsert the first tag with the key is the rule's string tag;
    after an insert it is the tag that was already first, if there was one,
    and the rule's string tag otherwise; an update never changes where the
    key is first found, and so never adds a missing key. *)
Theorem first_match_after_write (tags : list KeyValue)
    (action : AttributeAction) :
  let result := applyActionTags tags action in
  (Action action = Upsert ->
   exists i, findExisting (Key action) result = Some i
     /\ result !! i = Some (stringTag action))
  /\ (Action action = Insert ->
      exists i, findExisting (Key action) result = Some i
        /\ ((findExisting (Key action) tags = Some i
             /\ result !! i = tags !! i)
            \/ (findExisting (Key action) tags = None
                /\ result !! i = Some (stringTag action))))
  /\ (Action action = Update ->
      findExisting (Key action) result = findExisting (Key action) tags).
Proof.
  cbv zeta.
  destruct (findExisting_split (Key action) tags)
    as [Hno|(pre & t & post & -> & Ht & Hpre)].
  - rewrite applyActionTags_absent by exact Hno.
    pose proof (findExisting_at_first (Key action) tags [] (stringTag action)
                  Hno eq_refl) as Hfound.
    pose proof (proj2 (findExisting_None _ _) Hno) as Hnone.
    split; [|split]; intros Hk; rewrite Hk; simpl.
    + exists (length tags). split; [exact Hfound|].
      now apply list_lookup_middle.
    + exists (length tags). split; [exact Hfound|]. right.
      split; [exact Hnone|]. now apply list_lookup_middle.
    + reflexivity.
  - rewrite applyActionTags_present by assumption.
    pose proof (findExisting_at_first (Key action) pre post t Hpre Ht)
      as Hold.
    pose proof (findExisting_at_first (Key action) pre post (stringTag action)
                  Hpre eq_refl) as Hnew.
    split; [|split]; intros Hk; rewrite Hk; simpl.
    + exists (length pre). split; [exact Hnew|]. now apply list_lookup_middle.
    + exists (length pre). split; [exact Hold|]. left. now split.
    + now rewrite Hnew, Hold.
Qed.

Lemma isErrorTags_app (l1 l2 : list KeyValue) :
  isErrorTags (l1 ++ l2) = isErrorTags l1 || isErrorTags l2.
Proof.
  induction l1 as [|x l1 IH]; simpl; [reflexivity|].
  now destruct (isErrorTag x).
Qed.

Lemma stringTag_not_error (action : AttributeAction) :
  isErrorTag (stringTag action) = false.
Proof.
  unfold isErrorTag. simpl.
  destruct (String.eqb (Key action) "error");
    destruct (String.eqb (Key action) "http.status_code"); reflexivity.
Qed.

Lemma rule_adds_no_error (tags : list KeyValue) (action : AttributeAction) :
  isErrorTags tags = false -> isErrorTags (applyActionTags tags action) = false.
Proof.
  intros Hne.
  destruct (findExisting_split (Key action) tags)
    as [Hno|(pre & t & post & -> & Ht & Hpre)].
  - rewrite applyActionTags_absent by exact Hno.
    destruct (_ || _); [|exact Hne].
    rewrite isErrorTags_app, Hne. simpl. now rewrite stringTag_not_error.
  - rewrite applyActionTags_present by assumption.
    rewrite isErrorTags_app in Hne. apply orb_false_iff in Hne as [Hp Ht'].
    simpl in Ht'. destruct (isErrorTag t) eqn:Et; [discriminate|].
    assert (isErrorTags (pre ++ t :: post) = false) as Hsame
      by (rewrite isErrorTags_app, Hp; simpl; now rewrite Et).
    assert (isErrorTags (pre ++ stringTag action :: post) = false) as Hnew
      by (rewrite isErrorTags_app, Hp; simpl;
          now rewrite stringTag_not_error).
    assert (isErrorTags (pre ++ post) = false) as Hdel
      by (rewrite isErrorTags_app, Hp; exact Ht').
    by_kind action; assumption.
Qed.

(** X5.  Attribute rules cannot turn a span into an error span, and they
    leave the trace identifier and the duration alone: for a span that is
    not an error, the sampler takes the same decision and reaches the same
    state before and after any rule. *)
Theorem attribute_rule_keeps_sampling (a : arch) (span : Span)
    (action : AttributeAction) (p : SamplingProcessor)
    (Hplain : isError span = false) :
  isError (applyAction span action) = false
  /\ Trace (applyAction span action) = Trace span
  /\ Duration (applyAction span action) = Duration span
  /\ shouldSample a (applyAction span action) p = shouldSample a span p.
Proof.
  assert (isError (applyAction span action) = false) as Hafter
    by (unfold isError, applyAction; simpl; now apply rule_adds_no_error).
  split; [exact Hafter|]. split; [reflexivity|]. split; [reflexivity|].
  unfold shouldSample. rewrite Hafter, Hplain. reflexivity.
Qed.

Lemma attribute_rule_keeps_sampling_witness :
  shouldSample amd64 (applyAction span_a (envRule Upsert)) zeroRateProcessor
  = shouldSample amd64 span_a zeroRateProcessor.
Proof.
  exact (proj2 (proj2 (proj2
    (attribute_rule_keeps_sampling amd64 span_a (envRule Upsert)
       zeroRateProcessor eq_refl)))).
Defined.

End MoreAttributeFacts.

(** ** The sampler over a stream *)

Section MoreSamplingFacts.
Import GoNum model sampling.

Lemma wrap64_small (z : Z) : - 2 ^ 63 <= z < 2 ^ 63 -> wrap64 z = z.
Proof.
  intros H. unfold wrap64. rewrite Z.mod_small; lia.
Qed.

Lemma shouldSample_records (a : arch) (span : Span) (p : SamplingProcessor) :
  exists isErr, snd (shouldSample a span p) = recordSample isErr p.
Proof.
  unfold shouldSample.
  destruct (alwaysSampleErrors p && isError span); [now exists true|].
  destruct (slowThreshold p <=? Duration span); [now exists false|].
  now exists (isError span).
Qed.

Lemma recordSample_config (isErr : bool) (p : SamplingProcessor) :
  baseSampleRate (recordSample isErr p) = baseSampleRate p
  /\ alwaysSampleErrors (recordSample isErr p) = alwaysSampleErrors p
  /\ slowThreshold (recordSample isErr p) = slowThreshold p
  /\ adaptiveWindow (recordSample isErr p) = adaptiveWindow p.
Proof.
  unfold recordSample.
  destruct (adaptiveWindow p <=? int_add (recentTotal p) 1); now simpl.
Qed.

Lemma recordSample_window (isErr : bool) (p : SamplingProcessor) :
  adaptiveWindow p < 2 ^ 63 ->
  0 <= recentErrors p <= recentTotal p -> recentTotal p < adaptiveWindow p ->
  0 <= recentErrors (recordSample isErr p) <= recentTotal (recordSample isErr p)
  /\ recentTotal (recordSample isErr p) < adaptiveWindow p
  /\ recentTotal (recordSample isErr p)
     = (recentTotal p + 1) mod adaptiveWindow p.
Proof.
  intros Hw He Ht. unfold recordSample, int_add.
  rewrite (wrap64_small (recentTotal p + 1)) by lia.
  destruct (adaptiveWindow p <=? recentTotal p + 1) eqn:E; simpl.
  - apply Z.leb_le in E.
    replace (recentTotal p + 1) with (adaptiveWindow p) by lia.
    rewrite Z.mod_same by lia. lia.
  - apply Z.leb_gt in E. rewrite Z.mod_small by lia.
    destruct isErr; [rewrite wrap64_small by lia|]; lia.
Qed.

(** X6.  Started from [NewSamplingProcessor] with a window of at least 1,
    the sampler counts every span of the stream exactly once into
    non-overlapping windows: after any input the total is the number of spans
    modulo the window, the error count lies between 0 and the total, and the
    configuration is what it was. *)
Theorem sampler_window_counters (a : arch) (config : SamplingConfig)
    (input : list Span)
    (Hwindow : 1 <= AdaptiveWindow config < 2 ^ 63) :
  let p := snd (Process a input (NewSamplingProcessor config)) in
  recentTotal p = Z.of_nat (length input) mod AdaptiveWindow config
  /\ 0 <= recentErrors p <= recentTotal p
  /\ baseSampleRate p = BaseSampleRate config
  /\ alwaysSampleErrors p = AlwaysSampleErrors config
  /\ slowThreshold p = SlowThreshold config
  /\ adaptiveWindow p = AdaptiveWindow config.
Proof.
  cbv zeta.
  assert (forall (input : list Span) (p0 : SamplingProcessor) (n : Z),
            adaptiveWindow p0 = AdaptiveWindow config ->
            0 <= recentErrors p0 <= recentTotal p0 ->
            recentTotal p0 = n mod AdaptiveWindow config ->
            let p := snd (Process a input p0) in
            recentTotal p
            = (n + Z.of_nat (length input)) mod AdaptiveWindow config
            /\ 0 <= recentErrors p <= recentTotal p
            /\ baseSampleRate p = baseSampleRate p0
            /\ alwaysSampleErrors p = alwaysSampleErrors p0
            /\ slowThreshold p = slowThreshold p0
            /\ adaptiveWindow p = adaptiveWindow p0) as Hgen.
  { clear input. induction input as [|span rest IH]; intros p0 n Hw He Ht.
    - simpl. rewrite Z.add_0_r.
      repeat split; first [assumption|reflexivity|lia].
    - cbn [Process].
      destruct (shouldSample_records a span p0) as [isErr Hrec].
      destruct (shouldSample a span p0) as [keep p1]. simpl in Hrec. subst p1.
      destruct (recordSample_config isErr p0) as (Cb & Ca & Cs & Cw).
      destruct (recordSample_window isErr p0) as (He' & Hlt & Hmod);
        [lia|exact He|rewrite Ht, Hw; apply Z.mod_pos_bound; lia|].
      specialize (IH (recordSample isErr p0) (n + 1)).
      destruct (Process a rest (recordSample isErr p0)) as [out p2].
      simpl in *.
      destruct IH as (I1 & I2 & I3 & I4 & I5 & I6);
        [congruence|exact He'| |].
      + rewrite Hmod, Ht, Hw. rewrite Zplus_mod_idemp_l. reflexivity.
      + split; [rewrite I1; f_equal; lia|].
        split; [exact I2|]. repeat split; congruence. }
  destruct (Hgen input (NewSamplingProcessor config) 0)
    as (I1 & I2 & I3 & I4 & I5 & I6); simpl; try lia.
  - rewrite Z.mod_0_l; lia.
  - repeat split; assumption || lia.
Qed.

Lemma sampler_window_counters_witness :
  recentTotal (snd (Process amd64 [span_a; span_b; errorSpan; span_a; span_b]
                            (NewSamplingProcessor (windowConfig 3))))
  = Z.of_nat 5 mod 3.
Proof.
  refine (proj1 (sampler_window_counters amd64 (windowConfig 3)
                   [span_a; span_b; errorSpan; span_a; span_b] _)).
  simpl. lia.
Defined.

Lemma recordSample_rate (isErr : bool) (p : SamplingProcessor) :
  rateOfBase (baseSampleRate p) (adaptiveRate p) ->
  rateOfBase (baseSampleRate p) (adaptiveRate (recordSample isErr p)).
Proof.
  intros H. unfold recordSample.
  destruct (adaptiveWindow p <=? int_add (recentTotal p) 1); simpl;
    [|exact H].
  unfold rateOfBase.
  destruct (PrimFloat.ltb 0.05 _); [tauto|].
  destruct (PrimFloat.ltb 0.01 _); tauto.
Qed.

(** X7.  Whatever the stream and the window, the adaptive rate of a sampler
    started from [NewSamplingProcessor] is always one of three values: the
    base rate, [min 1 (base*1.5)] or [min 1 (base*2)]. *)
Theorem sampler_rate_values (a : arch) (config : SamplingConfig)
    (input : list Span) :
  rateOfBase (BaseSampleRate config)
             (adaptiveRate (snd (Process a input (NewSamplingProcessor config)))).
Proof.
  assert (forall (input : list Span) (p0 : SamplingProcessor),
            rateOfBase (baseSampleRate p0) (adaptiveRate p0) ->
            rateOfBase (baseSampleRate p0)
                       (adaptiveRate (snd (Process a input p0)))) as Hgen.
  { clear input. induction input as [|span rest IH]; intros p0 H0.
    - exact H0.
    - cbn [Process].
      destruct (shouldSample_records a span p0) as [isErr Hrec].
      destruct (shouldSample a span p0) as [keep p1]. simpl in Hrec. subst p1.
      pose proof (recordSample_rate isErr p0 H0) as H1.
      destruct (recordSample_config isErr p0) as (Cb & _).
      specialize (IH (recordSample isErr p0)). rewrite Cb in IH.
      destruct (Process a rest (recordSample isErr p0)) as [out p2].
      simpl in *. now apply IH. }
  apply (Hgen input (NewSamplingProcessor config)). now left.
Qed.


(** X9.  With a window of 1 or less (the zero value of an unset
    [AdaptiveWindow] among them) every record closes a window of one sample:
    the counters stay 0 and the rate follows the last span alone, doubled
    (capped at 1) after an error and back at the base rate after a
    non-error. *)
Theorem sampler_degenerate_window (isErr : bool) (p : SamplingProcessor)
    (Hwindow : adaptiveWindow p <= 1)
    (Htotal : recentTotal p = 0) (Herrors : recentErrors p = 0) :
  recentTotal (recordSample isErr p) = 0
  /\ recentErrors (recordSample isErr p) = 0
  /\ adaptiveRate (recordSample isErr p)
     = if isErr then min 1%float (PrimFloat.mul (baseSampleRate p) 2%float)
       else baseSampleRate p.
Proof.
  unfold recordSample. rewrite Htotal, Herrors.
  change (int_add 0 1) with 1.
  assert ((adaptiveWindow p <=? 1) = true) as -> by now apply Z.leb_le.
  simpl. split; [reflexivity|]. split; [reflexivity|].
  destruct isErr; reflexivity.
Qed.

Lemma sampler_degenerate_window_witness :
  adaptiveRate (recordSample true (NewSamplingProcessor (windowConfig 0)))
  = min 1%float (PrimFloat.mul 0.1%float 2%float).
Proof.
  refine (proj2 (proj2 (sampler_degenerate_window true
            (NewSamplingProcessor (windowConfig 0)) _ eq_refl eq_refl))).
  simpl. lia.
Defined.

End MoreSamplingFacts.

(** ** The batch stage under every schedule *)

Section MoreBatchFacts.
Import model batch.

(** X10.  A flush interrupted by cancellation after [k] sends returns before
    the buffer is cleared, so the buffer is still whole; if the loop then
    takes another flush before it sees the cancellation, the first [k] spans
    are sent a second time. *)
Theorem interrupted_flush_resends (p : BatchProcessor) (st : state) (k : nat)
    (Hrunning : returned st = false)
    (Hcut : (0 < k < length (batch st))%nat) :
  let st1 := step p st (Tick (Some k)) in
  let st2 := step p st1 (Tick None) in
  batch st1 = batch st
  /\ output st1 = output st ++ take k (batch st)
  /\ returned st1 = false
  /\ output st2 = output st ++ take k (batch st) ++ batch st
  /\ batch st2 = [].
Proof.
  cbv zeta.
  assert (step p st (Tick (Some k))
          = {| batch := batch st; sent := sent st ++ [take k (batch st)];
               returned := false |}) as E1.
  { unfold step. rewrite Hrunning.
    assert ((0 <? length (batch st))%nat = true) as ->
      by (apply Nat.ltb_lt; lia).
    unfold flush.
    assert ((k <? length (batch st))%nat = true) as ->
      by (apply Nat.ltb_lt; lia).
    now rewrite Hrunning. }
  rewrite E1. rewrite step_Tick by reflexivity. simpl.
  destruct (batch st) as [|b bs] eqn:Eb; [simpl in Hcut; lia|].
  split; [reflexivity|]. split; [apply output_app|].
  split; [reflexivity|]. split; [|reflexivity].
  unfold output. simpl. rewrite !concat_app. simpl.
  rewrite !app_nil_r. now rewrite <- app_assoc.
Qed.

Lemma interrupted_flush_resends_witness :
  output (step (sizedBatch 8)
            (step (sizedBatch 8)
               {| batch := [span_a; span_b; errorSpan]; sent := [];
                  returned := false |}
               (Tick (Some 2%nat)))
            (Tick None))
  = [] ++ take 2%nat [span_a; span_b; errorSpan]
       ++ [span_a; span_b; errorSpan].
Proof.
  refine (proj1 (proj2 (proj2 (proj2
    (interrupted_flush_resends (sizedBatch 8)
       {| batch := [span_a; span_b; errorSpan]; sent := [];
          returned := false |} 2%nat eq_refl _))))).
  simpl. lia.
Defined.

Lemma concat_snoc (s : list (list Span)) (l : list Span) :
  concat (s ++ [l]) = concat s ++ l.
Proof. rewrite concat_app. simpl. now rewrite app_nil_r. Qed.

Lemma flush_members (cut : option nat) (st : state) (x : Span) :
  x ∈ output (flush cut st) ++ batch (flush cut st) ->
  x ∈ output st ++ batch st.
Proof.
  assert (forall k, x ∈ take k (batch st) -> x ∈ batch st) as Htake.
  { intros k H. apply list_elem_of_lookup in H as [i H].
    apply lookup_take_Some in H as [H _]. apply list_elem_of_lookup. eauto. }
  unfold flush.
  destruct cut as [k|]; [destruct (k <? length (batch st))%nat|]; simpl.
  - unfold output. simpl. rewrite concat_snoc, !elem_of_app.
    intros [[H|H]|H]; eauto.
  - unfold output. simpl. rewrite concat_snoc, app_nil_r. tauto.
  - unfold output. simpl. rewrite concat_snoc, app_nil_r. tauto.
Qed.

Lemma step_members (p : BatchProcessor) (st : state) (e : event) (x : Span) :
  x ∈ output (step p st e) ++ batch (step p st e) ->
  x ∈ output st ++ batch st ++ received [e].
Proof.
  unfold step. destruct (returned st).
  { rewrite !elem_of_app. tauto. }
  destruct e as [span cut|cut|cut|]; simpl.
  - destruct (sendBatchSize p <=? _).
    + intros H. apply flush_members in H. unfold output in *. simpl in H.
      rewrite !elem_of_app in *. tauto.
    + unfold output. simpl. rewrite !elem_of_app. tauto.
  - destruct (0 <? length (batch st))%nat.
    + change (output (stop (flush cut st))) with (output (flush cut st)).
      change (batch (stop (flush cut st))) with (batch (flush cut st)).
      intros H. apply flush_members in H.
      rewrite !elem_of_app in *. tauto.
    + change (output (stop st)) with (output st).
      change (batch (stop st)) with (batch st).
      rewrite !elem_of_app. tauto.
  - destruct (0 <? length (batch st))%nat.
    + intros H. apply flush_members in H.
      rewrite !elem_of_app in *. tauto.
    + rewrite !elem_of_app. tauto.
  - change (output (stop st)) with (output st).
    change (batch (stop st)) with (batch st).
    rewrite !elem_of_app. tauto.
Qed.

Lemma run_members (p : BatchProcessor) (events : list event) :
  forall (st : state) (x : Span),
    x ∈ output (fold_left (step p) events st)
        ++ batch (fold_left (step p) events st) ->
    x ∈ output st ++ batch st ++ received events.
Proof.
  induction events as [|e rest IH]; intros st x H; simpl in *.
  - now rewrite app_nil_r.
  - apply IH in H. rewrite app_assoc, elem_of_app in H.
    assert (x ∈ received (e :: rest)
            <-> x ∈ received [e] \/ x ∈ received rest) as Hsplit.
    { destruct e; simpl; rewrite ?elem_of_cons, ?elem_of_nil; tauto. }
    rewrite !elem_of_app, Hsplit.
    destruct H as [H|H]; [|tauto].
    apply step_members in H. rewrite !elem_of_app in H. tauto.
Qed.

Lemma run_uncut_prefix (p : BatchProcessor) (events : list event) :
  forall st : state,
    forallb uncut events = true -> returned st = false ->
    output (fold_left (step p) events st)
      `prefix_of` output st ++ batch st ++ received events.
Proof.
  induction events as [|e rest IH]; intros st Hu Hr; simpl.
  - now apply prefix_app_r.
  - simpl in Hu. apply andb_true_iff in Hu as [He Hrest].
    destruct e as [span [k|]|[k|]|[k|]|]; try discriminate.
    + rewrite step_Recv by exact Hr.
      destruct (sendBatchSize p <=? _).
      * pose proof (IH {| batch := []; sent := sent st ++ [batch st ++ [span]];
                          returned := false |} Hrest eq_refl) as Hp.
        unfold output at 2 in Hp. simpl in Hp.
        rewrite concat_snoc, <- !app_assoc in Hp. exact Hp.
      * pose proof (IH {| batch := batch st ++ [span]; sent := sent st;
                          returned := false |} Hrest eq_refl) as Hp.
        unfold output at 2 in Hp. simpl in Hp.
        rewrite <- !app_assoc in Hp. exact Hp.
    + rewrite step_InClosed by exact Hr.
      destruct (batch st) as [|b bs] eqn:Eb.
      * rewrite run_returned by reflexivity. unfold output. simpl.
        now apply prefix_app_r.
      * rewrite run_returned by reflexivity. unfold output. simpl.
        rewrite concat_snoc.
        change (b :: bs ++ received rest) with ((b :: bs) ++ received rest).
        rewrite app_assoc. now apply prefix_app_r.
    + rewrite step_Tick by exact Hr.
      destruct (batch st) as [|b bs] eqn:Eb.
      * specialize (IH st Hrest Hr). now rewrite Eb in IH.
      * pose proof (IH {| batch := []; sent := sent st ++ [b :: bs];
                          returned := false |} Hrest eq_refl) as Hp.
        unfold output at 2 in Hp. simpl in Hp.
        rewrite concat_snoc in Hp. rewrite <- !app_assoc in Hp. exact Hp.
    + assert (step p st Done = stop st) as ->
        by (unfold step; now rewrite Hr).
      rewrite run_returned by reflexivity.
      change (output (stop st)) with (output st). now apply prefix_app_r.
Qed.

(** X11.  Under every schedule, cancellations in the middle of a flush
    included, the stage sends only spans it received; and when no flush is
    interrupted, what it has sent is at every moment a prefix of what it
    received: in order, without gap and without repetition. *)
Theorem batch_sends_what_it_received (rt : runtime) (p : BatchProcessor)
    (events : list event) (st : state)
    (Hrun : Process rt p events = Some st) :
  (forall x, x ∈ output st -> x ∈ received events)
  /\ (forallb uncut events = true ->
      output st `prefix_of` received events).
Proof.
  destruct (Process_starts rt p events st Hrun) as [_ ->].
  split.
  - intros x Hx. apply (run_members p events init x).
    apply elem_of_app. now left.
  - intros Hu. now apply (run_uncut_prefix p events init).
Qed.

Lemma batch_sends_what_it_received_witness :
  output (fold_left (step (sizedBatch 2))
            [Recv span_a None; Recv span_b None; Recv errorSpan None; Done]
            init)
  `prefix_of` received
     [Recv span_a None; Recv span_b None; Recv errorSpan None; Done].
Proof.
  exact (proj2 (batch_sends_what_it_received linux64 (sizedBatch 2)
                  [Recv span_a None; Recv span_b None; Recv errorSpan None; Done]
                  _ eq_refl) eq_refl).
Defined.

Lemma chunks_nil (fuel n : nat) : chunks fuel n [] = [].
Proof. now destruct fuel. Qed.

Lemma chunks_cons (fuel n : nat) (l : list Span) :
  l <> [] -> chunks (S fuel) n l = take n l :: chunks fuel n (drop n l).
Proof. now destruct l. Qed.

Lemma run_chunks (p : BatchProcessor) (fuel : nat) :
  1 <= sendBatchSize p ->
  forall (spans : list Span) (done : list (list Span)),
    (length spans <= fuel)%nat ->
    fold_left (step p) (feed spans)
              {| batch := []; sent := done; returned := false |}
    = {| batch := [];
         sent := done ++ chunks fuel (Z.to_nat (sendBatchSize p)) spans;
         returned := true |}.
Proof.
  intros Hsize. set (n := Z.to_nat (sendBatchSize p)).
  assert (forall done, fold_left (step p) (feed [])
            {| batch := []; sent := done; returned := false |}
          = {| batch := []; sent := done; returned := true |}) as Hempty.
  { intros done. simpl. now rewrite step_InClosed. }
  induction fuel as [|fuel IH]; intros spans done Hlen.
  - destruct spans; [|simpl in Hlen; lia].
    rewrite Hempty. simpl. now rewrite app_nil_r.
  - destruct (decide (spans = [])) as [->|Hne];
      [rewrite Hempty; simpl; now rewrite app_nil_r|].
    rewrite chunks_cons by exact Hne.
    assert (0 < length spans)%nat as Hpos
      by (destruct spans; [congruence|simpl; lia]).
    destruct (le_lt_dec n (length spans)) as [Hfull|Hshort].
    + assert (exists m, n = S m) as [m Hm] by (exists (pred n); lia).
      destruct (lookup_lt_is_Some_2 spans m) as [y Hy]; [lia|].
      assert (take n spans = take m spans ++ [y]) as Ht
        by (rewrite Hm; now apply take_S_r).
      assert (feed spans = recvs (take m spans ++ [y]) ++ feed (drop n spans))
        as ->.
      { unfold feed, recvs. rewrite <- (take_drop n spans) at 1.
        rewrite Ht, !map_app, <- !app_assoc. reflexivity. }
      rewrite fold_left_app.
      rewrite (run_recvs_fill p (take m spans) y
                 {| batch := []; sent := done; returned := false |} eq_refl)
        by (simpl; rewrite length_take; lia).
      simpl app. rewrite <- Ht.
      rewrite IH by (rewrite length_drop; lia).
      now rewrite <- app_assoc.
    + rewrite take_ge, drop_ge by lia. rewrite chunks_nil.
      unfold feed. rewrite fold_left_app. fold (recvs spans).
      rewrite (run_recvs_below p spans
                 {| batch := []; sent := done; returned := false |} eq_refl)
        by (simpl; lia).
      simpl. rewrite step_InClosed by reflexivity. simpl.
      destruct spans; [congruence|reflexivity].
Qed.

(** X12.  On a configuration on which the stage starts (sizes that
    [make] accepts and that fit in memory, a positive period), without ticks
    and cancellation, and for every batch size of at least 1, the flushes of
    a closed input stream are its consecutive pieces of [sendBatchSize]
    spans, the last one shorter when the length is not a multiple. *)
Theorem batch_cuts_into_chunks (rt : runtime) (p : BatchProcessor)
    (spans : list Span)
    (Hstarts : starts rt p) (Hsize : 1 <= sendBatchSize p) :
  Process rt p (feed spans)
  = Some {| batch := [];
            sent := chunks (length spans) (Z.to_nat (sendBatchSize p)) spans;
            returned := true |}.
Proof.
  rewrite Process_valid by exact Hstarts. f_equal. unfold init.
  now rewrite (run_chunks p (length spans) Hsize spans []).
Qed.

Lemma batch_cuts_into_chunks_witness :
  Process linux64 (sizedBatch 2)
          (feed [span_a; span_b; errorSpan; span_a; span_b])
  = Some {| batch := [];
            sent := chunks 5 2 [span_a; span_b; errorSpan; span_a; span_b];
            returned := true |}.
Proof.
  apply (batch_cuts_into_chunks linux64 (sizedBatch 2)
           [span_a; span_b; errorSpan; span_a; span_b]).
  - unfold starts. repeat split; vm_compute; (reflexivity || discriminate).
  - simpl. lia.
Defined.

(** X13.  On a configuration on which the stage starts (sizes that
    [make] accepts and that fit in memory, a positive period), with
    [sendBatchSize] 0 or 1 nothing is held back: every span is flushed alone
    as soon as it is received. *)
Theorem batch_size_one_forwards_at_once (rt : runtime) (p : BatchProcessor)
    (spans : list Span)
    (Hstarts : starts rt p) (Hs : sendBatchSize p <= 1) :
  Process rt p (feed spans)
  = Some {| batch := []; sent := map (fun s => [s]) spans;
            returned := true |}.
Proof.
  rewrite Process_valid by exact Hstarts. f_equal. unfold init.
  assert (forall done,
            fold_left (step p) (feed spans)
                      {| batch := []; sent := done; returned := false |}
            = {| batch := []; sent := done ++ map (fun s => [s]) spans;
                 returned := true |}) as Hgen.
  { induction spans as [|x t IH]; intros done.
    - simpl. rewrite step_InClosed by reflexivity. simpl.
      now rewrite app_nil_r.
    - change (feed (x :: t)) with (Recv x None :: feed t).
      cbn [fold_left]. rewrite step_Recv by reflexivity.
      destruct (sendBatchSize p <=? _) eqn:E;
        [|apply Z.leb_gt in E; simpl in E; lia].
      simpl. rewrite IH. now rewrite <- app_assoc. }
  rewrite Hgen. reflexivity.
Qed.

Lemma batch_size_one_forwards_at_once_witness :
  Process linux64 (sizedBatch 0) (feed [span_a; span_b])
  = Some {| batch := []; sent := [[span_a]; [span_b]]; returned := true |}.
Proof.
  apply (batch_size_one_forwards_at_once linux64 (sizedBatch 0)
           [span_a; span_b]).
  - unfold starts. repeat split; vm_compute; (reflexivity || discriminate).
  - simpl. lia.
Defined.

End MoreBatchFacts.

(** ** Snapshots *)

Section MoreObservabilityFacts.
Import GoNum observability.

Lemma Snapshot_ranks (m : Metrics) :
  processingTimes m <> [] ->
  Z.of_nat (length (processingTimes m)) <= 1000 ->
  exists sorted p50 p95 p99,
    sorted ≡ₚ processingTimes m /\ StronglySorted Z.le sorted
    /\ sorted !! Z.to_nat (Z.of_nat (length (processingTimes m)) / 2)
       = Some p50
    /\ sorted !! Z.to_nat (Z.of_nat (length (processingTimes m)) * 95 / 100)
       = Some p95
    /\ sorted !! Z.to_nat (Z.of_nat (length (processingTimes m)) * 99 / 100)
       = Some p99
    /\ Snapshot m = Some (snapshotOf m p50 p95 p99, m).
Proof.
  intros Hne Hcap.
  set (mem0 := fun a => match a with
                        | live => processingTimes m
                        | fresh => []
                        end).
  set (mem2 := write (write mem0 fresh
                            (replicate (length (processingTimes m)) 0))
                     fresh (processingTimes m)).
  destruct (simple_sort_sorted fresh mem2) as (Hperm & Hsorted & Hother).
  assert (mem2 fresh = processingTimes m) as Hm2 by apply write_same.
  assert (simple_sort fresh mem2 live = processingTimes m) as Hlive
    by (rewrite Hother by discriminate; reflexivity).
  rewrite Hm2 in Hperm.
  pose proof (Permutation_length Hperm) as Hlen.
  assert (0 < length (processingTimes m))%nat as Hpos
    by (destruct (processingTimes m); [congruence|simpl; lia]).
  destruct (percentile_index_exact (length (processingTimes m))) as [E95 E99];
    [lia|].
  set (n := Z.of_nat (length (processingTimes m))) in *.
  assert (forall k, 0 <= k < n ->
            exists v, simple_sort fresh mem2 fresh !! Z.to_nat k = Some v)
    as Hget.
  { intros k Hk. apply lookup_lt_is_Some. rewrite Hlen. lia. }
  destruct (Hget (n / 2)) as [p50 H50];
    [split; [apply Z.div_pos; lia|apply Z.div_lt_upper_bound; lia]|].
  destruct (Hget (n * 95 / 100)) as [p95 H95];
    [split; [apply Z.div_pos; lia|apply Z.div_lt_upper_bound; lia]|].
  destruct (Hget (n * 99 / 100)) as [p99 H99];
    [split; [apply Z.div_pos; lia|apply Z.div_lt_upper_bound; lia]|].
  exists (simple_sort fresh mem2 fresh), p50, p95, p99.
  split; [exact Hperm|]. split; [exact Hsorted|].
  split; [exact H50|]. split; [exact H95|]. split; [exact H99|].
  unfold Snapshot. fold mem0.
  change (mem0 live) with (processingTimes m).
  assert ((0 <? length (processingTimes m))%nat = true) as ->
    by now apply Nat.ltb_lt.
  rewrite write_same.
  change (write mem0 fresh (replicate (length (processingTimes m)) 0) live)
    with (processingTimes m).
  rewrite copy_into_fresh. fold mem2. fold n. rewrite E95, E99, Hlive.
  unfold index.
  assert ((n / 2 <? 0) = false) as ->
    by (apply Z.ltb_ge, Z.div_pos; lia).
  assert ((n * 95 / 100 <? 0) = false) as ->
    by (apply Z.ltb_ge, Z.div_pos; lia).
  assert ((n * 99 / 100 <? 0) = false) as ->
    by (apply Z.ltb_ge, Z.div_pos; lia).
  rewrite H50, H95, H99. now rewrite set_processingTimes_same.
Qed.

Lemma sorted_lookup_le (l : list Z) :
  StronglySorted Z.le l ->
  forall i j x y, (i <= j)%nat -> l !! i = Some x -> l !! j = Some y -> x <= y.
Proof.
  induction 1 as [|a l Hs IH Hall]; intros i j x y Hij Hi Hj.
  - inversion Hi.
  - destruct i as [|i], j as [|j]; simpl in *.
    + injection Hi as <-. injection Hj as <-. lia.
    + injection Hi as <-. rewrite Forall_forall in Hall.
      apply Hall, list_elem_of_lookup. eauto.
    + lia.
    + apply (IH i j); [lia|assumption|assumption].
Qed.

(** X14.  For a non-empty buffer within the capacity 1000, [Snapshot]
    succeeds and its percentiles are ordered: P50 <= P95 <= P99, each lying
    between the smallest and the largest recorded sample. *)
Theorem percentiles_are_ordered (m : Metrics)
    (Hsome : processingTimes m <> [])
    (Hcap : Z.of_nat (length (processingTimes m)) <= 1000) :
  exists s, Snapshot m = Some (s, m)
    /\ LatencyP50 s <= LatencyP95 s <= LatencyP99 s
    /\ forall lo hi,
         Forall (fun d => lo <= d <= hi) (processingTimes m) ->
         lo <= LatencyP50 s /\ LatencyP99 s <= hi.
Proof.
  destruct (Snapshot_ranks m Hsome Hcap)
    as (sorted & p50 & p95 & p99 & Hperm & Hs & H50 & H95 & H99 & E).
  exists (snapshotOf m p50 p95 p99). split; [exact E|]. simpl.
  set (n := Z.of_nat (length (processingTimes m))) in *.
  assert (0 < n) by (unfold n; destruct (processingTimes m); [congruence|simpl; lia]).
  assert (Z.to_nat (n / 2) <= Z.to_nat (n * 95 / 100))%nat as R1.
  { apply Z2Nat.inj_le; try (apply Z.div_pos; lia).
    apply Z.div_le_lower_bound; try lia.
    assert (2 * (n / 2) <= n) by (apply Z.mul_div_le; lia). lia. }
  assert (Z.to_nat (n * 95 / 100) <= Z.to_nat (n * 99 / 100))%nat as R2.
  { apply Z2Nat.inj_le; try (apply Z.div_pos; lia).
    apply Z.div_le_mono; lia. }
  split.
  - split.
    + exact (sorted_lookup_le sorted Hs _ _ _ _ R1 H50 H95).
    + exact (sorted_lookup_le sorted Hs _ _ _ _ R2 H95 H99).
  - intros lo hi Hall. rewrite <- Hperm in Hall. rewrite Forall_forall in Hall.
    split.
    + apply (Hall p50), list_elem_of_lookup. eauto.
    + apply (Hall p99), list_elem_of_lookup. eauto.
Qed.

Lemma percentiles_are_ordered_witness :
  exists s, Snapshot (withBuffer [30; 10; 100; 20] 1000)
            = Some (s, withBuffer [30; 10; 100; 20] 1000)
    /\ LatencyP50 s <= LatencyP95 s <= LatencyP99 s.
Proof.
  destruct (percentiles_are_ordered (withBuffer [30; 10; 100; 20] 1000))
    as (s & E & Hord & _).
  - discriminate.
  - simpl. lia.
  - exists s. split; [exact E|exact Hord].
Defined.

Lemma Snapshot_empty (m : Metrics) :
  processingTimes m = [] -> Snapshot m = Some (snapshotOf m 0 0 0, m).
Proof.
  intros Hempty. unfold Snapshot. rewrite Hempty. simpl.
  rewrite <- Hempty. now rewrite set_processingTimes_same.
Qed.

(** X15.  The percentiles depend on the samples in the buffer, not on the
    order in which they were recorded: two buffers (within the capacity
    1000) holding the same samples give the same P50, P95 and P99. *)
Theorem percentiles_ignore_recording_order (m1 m2 : Metrics)
    (Hsame : processingTimes m1 ≡ₚ processingTimes m2)
    (Hcap : Z.of_nat (length (processingTimes m1)) <= 1000) :
  exists s1 s2,
    Snapshot m1 = Some (s1, m1) /\ Snapshot m2 = Some (s2, m2)
    /\ LatencyP50 s1 = LatencyP50 s2
    /\ LatencyP95 s1 = LatencyP95 s2
    /\ LatencyP99 s1 = LatencyP99 s2.
Proof.
  pose proof (Permutation_length Hsame) as Hlen.
  destruct (decide (processingTimes m1 = [])) as [E1|N1].
  - assert (processingTimes m2 = []) as E2
      by (rewrite E1 in Hsame; now apply Permutation_nil).
    exists (snapshotOf m1 0 0 0), (snapshotOf m2 0 0 0).
    split; [now apply Snapshot_empty|]. split; [now apply Snapshot_empty|].
    now simpl.
  - assert (processingTimes m2 <> []) as N2.
    { intros E2. rewrite E2 in Hsame. symmetry in Hsame.
      now apply Permutation_nil in Hsame. }
    destruct (Snapshot_ranks m1 N1 Hcap)
      as (l1 & a50 & a95 & a99 & P1 & S1 & A50 & A95 & A99 & R1).
    destruct (Snapshot_ranks m2 N2 ltac:(lia))
      as (l2 & b50 & b95 & b99 & P2 & S2 & B50 & B95 & B99 & R2).
    assert (l1 = l2) as ->.
    { apply (StronglySorted_unique Z.le); [exact S1|exact S2|].
      now rewrite P1, P2. }
    rewrite <- Hlen in B50, B95, B99.
    exists (snapshotOf m1 a50 a95 a99), (snapshotOf m2 b50 b95 b99).
    split; [exact R1|]. split; [exact R2|]. simpl.
    repeat split; congruence.
Qed.

Lemma percentiles_ignore_recording_order_witness :
  exists s1 s2,
    Snapshot (withBuffer [30; 10; 20] 1000)
    = Some (s1, withBuffer [30; 10; 20] 1000)
    /\ Snapshot (withBuffer [10; 20; 30] 1000)
       = Some (s2, withBuffer [10; 20; 30] 1000)
    /\ LatencyP50 s1 = LatencyP50 s2
    /\ LatencyP95 s1 = LatencyP95 s2
    /\ LatencyP99 s1 = LatencyP99 s2.
Proof.
  apply (percentiles_ignore_recording_order
           (withBuffer [30; 10; 20] 1000) (withBuffer [10; 20; 30] 1000)).
  - simpl. apply (Permutation_cons_append [10; 20] 30).
  - simpl. lia.
Defined.

(** X16.  [RecordProcessingTime] outside its usual range.  With a capacity
    of 0 or less it panics on the slice bound.  On a buffer longer than the
    capacity (the capacity having been lowered) it cuts the buffer down to
    the capacity by keeping the samples that follow the oldest one, so the
    most recent earlier samples are the ones lost. *)
Theorem record_outside_capacity (d : Z) (m : Metrics) :
  (maxSamples m <= 0 -> RecordProcessingTime d m = None)
  /\ (1 <= maxSamples m < Z.of_nat (length (processingTimes m)) ->
      RecordProcessingTime d m
      = Some (set_processingTimes m
                (take (Z.to_nat (maxSamples m - 1))
                      (drop 1 (processingTimes m)) ++ [d]))
        /\ Z.of_nat (length (take (Z.to_nat (maxSamples m - 1))
                                  (drop 1 (processingTimes m)) ++ [d]))
           = maxSamples m).
Proof.
  unfold RecordProcessingTime. split.
  - intros Hc.
    assert ((maxSamples m <=? Z.of_nat (length (processingTimes m))) = true)
      as -> by (apply Z.leb_le; lia).
    assert ((maxSamples m - 1 <? 0) = true) as -> by (apply Z.ltb_lt; lia).
    reflexivity.
  - intros Hc.
    assert ((maxSamples m <=? Z.of_nat (length (processingTimes m))) = true)
      as -> by (apply Z.leb_le; lia).
    assert ((maxSamples m - 1 <? 0) = false) as -> by (apply Z.ltb_ge; lia).
    rewrite copy_shift_left.
    rewrite take_app_le by (rewrite length_drop; lia).
    split; [reflexivity|].
    rewrite length_app, length_take, length_drop. simpl. lia.
Qed.

Lemma record_outside_capacity_witness :
  RecordProcessingTime 9 (withBuffer [1; 2; 3; 4] 0) = None
  /\ RecordProcessingTime 9 (withBuffer [1; 2; 3; 4] 2)
     = Some (withBuffer [2; 9] 2).
Proof.
  split.
  - apply (proj1 (record_outside_capacity 9 (withBuffer [1; 2; 3; 4] 0))).
    simpl. lia.
  - apply (proj1 (proj2 (record_outside_capacity 9
                           (withBuffer [1; 2; 3; 4] 2)) ltac:(simpl; lia))).
Defined.

Lemma record_counter (c c' : counterCall) (m : Metrics) :
  counter c (record m c')
  = (if counterCall_eqb c c' then uint64_add (counter c m) 1 else counter c m)
  /\ processingTimes (record m c') = processingTimes m.
Proof. destruct c, c'; now simpl. Qed.

Lemma record_all_counter (c : counterCall) (cs : list counterCall) :
  forall m : Metrics,
    counter c m = counter c m mod 2 ^ 64 ->
    counter c (fold_left record cs m) = (counter c m + calls c cs) mod 2 ^ 64
    /\ processingTimes (fold_left record cs m) = processingTimes m.
Proof.
  induction cs as [|c' rest IH]; intros m Hrange.
  - unfold calls. simpl. now rewrite Z.add_0_r.
  - cbn [fold_left]. destruct (record_counter c c' m) as [Hc Hb].
    destruct (IH (record m c')) as [I1 I2].
    { rewrite Hc. destruct (counterCall_eqb c c'); [|exact Hrange].
      unfold uint64_add. now rewrite Z.mod_mod. }
    rewrite I1, I2, Hb. split; [|reflexivity].
    unfold calls. cbn [List.filter]. rewrite Hc.
    destruct (counterCall_eqb c c'); [|reflexivity].
    unfold uint64_add. cbn [length]. rewrite Zplus_mod_idemp_l.
    f_equal. lia.
Qed.

(** X17.  The five counters are independent and lose no update: after any
    interleaving of calls on a new [Metrics], [Snapshot] reports for each
    counter the number of calls of its own method (modulo 2^64), with zero
    percentiles. *)
Theorem counters_count_their_calls (cs : list counterCall) :
  exists s m,
    m = fold_left record cs NewMetrics
    /\ Snapshot m = Some (s, m)
    /\ (forall c, snapshotCounter c s = calls c cs mod 2 ^ 64)
    /\ LatencyP50 s = 0 /\ LatencyP95 s = 0 /\ LatencyP99 s = 0.
Proof.
  set (m := fold_left record cs NewMetrics).
  assert (processingTimes m = []) as Hbuf
    by (destruct (record_all_counter Received cs NewMetrics eq_refl)
          as [_ H]; exact H).
  exists (snapshotOf m 0 0 0), m.
  split; [reflexivity|]. split; [now apply Snapshot_empty|].
  split; [|now simpl].
  intros c.
  destruct (record_all_counter c cs NewMetrics) as [H _];
    [now destruct c|].
  fold m in H. destruct c; simpl in *; exact H.
Qed.

(** X18.  The health endpoint answers 503 exactly when the drop rate or the
    error rate of the snapshot reaches its critical threshold, and 200
    otherwise, a degraded status included. *)
Theorem health_endpoint_code (h : HealthCheck) (m : Metrics)
    (status : HealthStatus) (code : Z) (s : MetricsSnapshot)
    (Hanswer : handleHealth h m = Some (status, code, s)) :
  status = determineStatus h s
  /\ (code = StatusServiceUnavailable <-> critical h s)
  /\ (code = StatusOK <-> ~ critical h s)
  /\ (status = HealthStatusDegraded -> code = StatusOK).
Proof.
  unfold handleHealth in Hanswer.
  destruct (Snapshot m) as [[s' m']|]; [|discriminate].
  injection Hanswer as <- <- <-.
  split; [reflexivity|].
  destruct (determineStatus_cases h s') as [[Hc E]|[(Hc & _ & E)|(Hc & _ & E)]];
    rewrite E; unfold StatusOK, StatusServiceUnavailable;
    repeat split; intros; try tauto; try discriminate; try lia.
Qed.

Lemma health_endpoint_code_witness :
  HealthStatusUnhealthy
  = determineStatus DefaultHealthCheckConfig (dropSnapshot 100 6)
  /\ (StatusServiceUnavailable = StatusServiceUnavailable
      <-> critical DefaultHealthCheckConfig (dropSnapshot 100 6)).
Proof.
  destruct (health_endpoint_code DefaultHealthCheckConfig
              (fold_left record
                 (replicate 100 Received ++ replicate 6 Dropped) NewMetrics)
              HealthStatusUnhealthy StatusServiceUnavailable
              (dropSnapshot 100 6)
              ltac:(vm_compute; reflexivity)) as (E & Hcode & _ & _).
  split; [exact E|exact Hcode].
Defined.

End MoreObservabilityFacts.

Section IdleFacts.
Import GoNum observability.

Lemma zero_below_threshold (x : float) :
  positive_threshold x -> geb 0%float x = false.
Proof.
  unfold positive_threshold, geb. rewrite ltb_spec, leb_spec.
  change (Prim2SF 0%float) with (S754_zero false).
  destruct (Prim2SF x) as [s|s| |s m e];
    try destruct s; cbn; intros H; try discriminate H; reflexivity.
Qed.

(** X19.  The rates guard against a zero denominator by answering 0: a
    snapshot with no span received and none exported is healthy under any
    positive thresholds, however many spans were dropped or export errors
    counted. *)
Theorem idle_service_is_healthy (h : HealthCheck) (s : MetricsSnapshot)
    (Hreceived : SpansReceived s = 0) (Hexported : SpansExported s = 0)
    (Hdw : positive_threshold (dropRateWarning h))
    (Hdc : positive_threshold (dropRateCritical h))
    (Hew : positive_threshold (errorRateWarning h))
    (Hec : positive_threshold (errorRateCritical h)) :
  DropRate s = 0%float /\ ErrorRate s = 0%float
  /\ determineStatus h s = HealthStatusHealthy.
Proof.
  assert (DropRate s = 0%float) as Hd
    by (unfold DropRate; now rewrite Hreceived).
  assert (ErrorRate s = 0%float) as He
    by (unfold ErrorRate; now rewrite Hexported).
  split; [exact Hd|]. split; [exact He|].
  unfold determineStatus. cbv zeta. rewrite Hd, He.
  now rewrite !zero_below_threshold.
Qed.

Lemma idle_service_is_healthy_witness :
  DropRate (idleSnapshot 7 3) = 0%float
  /\ ErrorRate (idleSnapshot 7 3) = 0%float
  /\ determineStatus DefaultHealthCheckConfig (idleSnapshot 7 3)
     = HealthStatusHealthy.
Proof.
  apply (idle_service_is_healthy DefaultHealthCheckConfig (idleSnapshot 7 3));
    reflexivity.
Defined.

End IdleFacts.

Section ConfigFacts.
Import config.

Lemma length_zero {A : Type} (l : list A) :
  (Z.of_nat (length l) =? 0) = true <-> l = [].
Proof.
  rewrite Z.eqb_eq. destruct l; simpl; split; intros H;
    try reflexivity; try discriminate H; lia.
Qed.

Lemma length_nonzero {A : Type} (l : list A) :
  (Z.of_nat (length l) =? 0) = false <-> l <> [].
Proof.
  rewrite Z.eqb_neq. destruct l; simpl; split; intros H;
    try congruence; try lia.
Qed.

Lemma Validate_loop_accepts (pipelines : list PipelineBlock) :
  Validate_loop pipelines = None <-> Forall connected pipelines.
Proof.
  induction pipelines as [|p rest IH]; simpl.
  - split; [constructor|reflexivity].
  - destruct (Z.of_nat (length (Receivers p)) =? 0) eqn:Hr.
    { split; [discriminate|]. intros H. inversion H as [|? ? [Hc _] _].
      now apply length_zero in Hr. }
    destruct (Z.of_nat (length (Exporters p)) =? 0) eqn:He.
    { split; [discriminate|]. intros H. inversion H as [|? ? [_ Hc] _].
      now apply length_zero in He. }
    rewrite IH. apply length_nonzero in Hr, He. split.
    + intros H. constructor; [now split|exact H].
    + intros H. now inversion H.
Qed.

(** X20.  [Validate] accepts a configuration exactly when it has at least
    one pipeline and every pipeline names at least one receiver and one
    exporter.  Nothing else is looked at: processors may be missing, and
    the names need not belong to a declared block. *)
Theorem Validate_accepts_connected_pipelines (c : Config) :
  Validate c = None
  <-> Pipelines c <> [] /\ Forall connected (Pipelines c).
Proof.
  unfold Validate.
  destruct (Z.of_nat (length (Pipelines c)) =? 0) eqn:Hp.
  - apply length_zero in Hp. split; [discriminate|]. now intros [H _].
  - apply length_nonzero in Hp. rewrite Validate_loop_accepts. tauto.
Qed.

Lemma Validate_loop_first (pipelines : list PipelineBlock) (msg : string) :
  Validate_loop pipelines = Some msg ->
  exists before p after,
    pipelines = before ++ p :: after
    /\ Forall connected before
    /\ ((Receivers p = []
         /\ msg = String.append "pipeline "
                    (String.append (Name p) " has no receivers"))
        \/ (Receivers p <> [] /\ Exporters p = []
            /\ msg = String.append "pipeline "
                       (String.append (Name p) " has no exporters"))).
Proof.
  induction pipelines as [|p rest IH]; simpl; [discriminate|].
  destruct (Z.of_nat (length (Receivers p)) =? 0) eqn:Hr.
  { intros [= <-]. apply length_zero in Hr.
    exists [], p, rest. split; [reflexivity|]. split; [constructor|].
    now left. }
  destruct (Z.of_nat (length (Exporters p)) =? 0) eqn:He.
  { intros [= <-]. apply length_zero in He. apply length_nonzero in Hr.
    exists [], p, rest. split; [reflexivity|]. split; [constructor|].
    now right. }
  intros H. destruct (IH H) as (before & q & after & -> & Hb & Hq).
  apply length_nonzero in Hr, He.
  exists (p :: before), q, after. split; [reflexivity|].
  split; [constructor; [now split|exact Hb]|exact Hq].
Qed.

(** X21.  The error of [Validate] is about the first pipeline, in the order
    of the file, that lacks a receiver or an exporter; a pipeline lacking
    both is reported for its receivers.  Later pipelines are not
    examined. *)
Theorem Validate_reports_first_failure (c : Config) (msg : string)
    (Herror : Validate c = Some msg) :
  (Pipelines c = [] /\ msg = "at least one pipeline must be defined")
  \/ exists before p after,
       Pipelines c = before ++ p :: after
       /\ Forall connected before
       /\ ((Receivers p = []
            /\ msg = String.append "pipeline "
                       (String.append (Name p) " has no receivers"))
           \/ (Receivers p <> [] /\ Exporters p = []
               /\ msg = String.append "pipeline "
                          (String.append (Name p) " has no exporters"))).
Proof.
  unfold Validate in Herror.
  destruct (Z.of_nat (length (Pipelines c)) =? 0) eqn:Hp.
  - left. apply length_zero in Hp. injection Herror as <-. now split.
  - right. now apply Validate_loop_first.
Qed.

Lemma Validate_reports_first_failure_witness :
  (Pipelines (configOf [tracesPipeline ["otlp"] ["jaeger"];
                        tracesPipeline [] []]) = []
   /\ "pipeline traces has no receivers"
      = "at least one pipeline must be defined")
  \/ exists before p after,
       Pipelines (configOf [tracesPipeline ["otlp"] ["jaeger"];
                            tracesPipeline [] []])
       = before ++ p :: after
       /\ Forall connected before
       /\ ((Receivers p = []
            /\ "pipeline traces has no receivers"
               = String.append "pipeline "
                   (String.append (Name p) " has no receivers"))
           \/ (Receivers p <> [] /\ Exporters p = []
               /\ "pipeline traces has no receivers"
                  = String.append "pipeline "
                      (String.append (Name p) " has no exporters"))).
Proof.
  apply (Validate_reports_first_failure
           (configOf [tracesPipeline ["otlp"] ["jaeger"];
                      tracesPipeline [] []])
           "pipeline traces has no receivers").
  reflexivity.
Defined.

End ConfigFacts.

Section ModelTextFacts.
Import model modelText.

Lemma hexDigit_inj (a b : Z) :
  0 <= a < 16 -> 0 <= b < 16 -> hexDigit a = hexDigit b -> a = b.
Proof.
  intros Ha Hb.
  assert (a = 0 \/ a = 1 \/ a = 2 \/ a = 3 \/ a = 4 \/ a = 5 \/ a = 6
          \/ a = 7 \/ a = 8 \/ a = 9 \/ a = 10 \/ a = 11 \/ a = 12
          \/ a = 13 \/ a = 14 \/ a = 15) as Ca by lia.
  assert (b = 0 \/ b = 1 \/ b = 2 \/ b = 3 \/ b = 4 \/ b = 5 \/ b = 6
          \/ b = 7 \/ b = 8 \/ b = 9 \/ b = 10 \/ b = 11 \/ b = 12
          \/ b = 13 \/ b = 14 \/ b = 15) as Cb by lia.
  clear Ha Hb.
  repeat (destruct Ca as [->|Ca]); try subst a;
    repeat (destruct Cb as [->|Cb]); try subst b;
    intros H; try reflexivity; discriminate H.
Qed.

Lemma hexDigits_length (n : nat) :
  forall v acc,
    String.length (hexDigits n v acc) = (n + String.length acc)%nat.
Proof.
  induction n as [|k IH]; intros v acc; simpl; [reflexivity|].
  rewrite IH. simpl. lia.
Qed.

Lemma append_length (s1 s2 : string) :
  String.length (String.append s1 s2)
  = (String.length s1 + String.length s2)%nat.
Proof.
  induction s1 as [|c s1 IH]; [reflexivity|].
  change (S (String.length (String.append s1 s2))
          = S (String.length s1 + String.length s2)).
  now rewrite IH.
Qed.

Lemma append_assoc (s1 s2 s3 : string) :
  String.append (String.append s1 s2) s3
  = String.append s1 (String.append s2 s3).
Proof.
  induction s1 as [|c s1 IH]; [reflexivity|].
  change (String c (String.append (String.append s1 s2) s3)
          = String c (String.append s1 (String.append s2 s3))).
  now rewrite IH.
Qed.

Lemma hexDigits_acc (n : nat) :
  forall v acc,
    hexDigits n v acc = String.append (hexDigits n v "") acc.
Proof.
  induction n as [|k IH]; intros v acc; simpl; [reflexivity|].
  rewrite (IH (v / 16) (String (hexDigit (v mod 16)) acc)).
  rewrite (IH (v / 16) (String (hexDigit (v mod 16)) "")).
  rewrite (append_assoc (hexDigits k (v / 16) "")). reflexivity.
Qed.

Lemma hexDigits_inj (n : nat) :
  forall v w acc acc',
    String.length acc = String.length acc' ->
    hexDigits n v acc = hexDigits n w acc' ->
    v mod 16 ^ Z.of_nat n = w mod 16 ^ Z.of_nat n /\ acc = acc'.
Proof.
  induction n as [|k IH]; intros v w acc acc' Hlen H.
  - simpl in H. split; [now rewrite !Z.mod_1_r|exact H].
  - cbn [hexDigits] in H.
    apply IH in H; [|simpl; now rewrite Hlen].
    destruct H as [Hhigh Hcons]. injection Hcons as Hd Hacc.
    apply hexDigit_inj in Hd; try (apply Z.mod_pos_bound; lia).
    split; [|exact Hacc].
    rewrite Nat2Z.inj_succ, Z.pow_succ_r by lia.
    rewrite !Z.rem_mul_r by lia. now rewrite Hd, Hhigh.
Qed.

Lemma Sprintf_016x_length (v : Z) : String.length (Sprintf_016x v) = 16%nat.
Proof. unfold Sprintf_016x. now rewrite hexDigits_length. Qed.

Lemma Sprintf_016x_inj (v w : Z) (acc acc' : string) :
  uint64_range v -> uint64_range w ->
  String.length acc = String.length acc' ->
  String.append (Sprintf_016x v) acc = String.append (Sprintf_016x w) acc' ->
  v = w /\ acc = acc'.
Proof.
  unfold uint64_range, Sprintf_016x. intros Hv Hw Hlen H.
  rewrite <- !hexDigits_acc in H.
  apply hexDigits_inj in H; [|exact Hlen].
  destruct H as [H Hacc]. split; [|exact Hacc].
  change (16 ^ Z.of_nat 16) with (2 ^ 64) in H.
  now rewrite !Z.mod_small in H by lia.
Qed.

Lemma append_nil_r (s : string) : String.append s "" = s.
Proof.
  induction s as [|c s IH]; [reflexivity|].
  change (String c (String.append s "") = String c s). now rewrite IH.
Qed.

(** X22.  The text form identifies the trace: it has 16 hexadecimal digits
    when the high half is zero and 32 otherwise, it is sixteen zeros exactly
    for the invalid (all-zero) id, and two 128-bit ids with the same text
    are the same id. *)
Theorem TraceID_String_identifies (t1 t2 : TraceID)
    (H1 : uint64_range (High t1) /\ uint64_range (Low t1))
    (H2 : uint64_range (High t2) /\ uint64_range (Low t2)) :
  String.length (TraceID_String t1)
  = (if High t1 =? 0 then 16%nat else 32%nat)
  /\ (TraceID_String t1 = "0000000000000000"
      <-> TraceID_IsValid t1 = false)
  /\ (TraceID_String t1 = TraceID_String t2 -> t1 = t2).
Proof.
  destruct H1 as [Hh1 Hl1], H2 as [Hh2 Hl2].
  assert (forall t, String.length (TraceID_String t)
                    = (if High t =? 0 then 16%nat else 32%nat)) as Hlen.
  { intros t. unfold TraceID_String, SpanID_String.
    destruct (High t =? 0); [apply Sprintf_016x_length|].
    now rewrite append_length, !Sprintf_016x_length. }
  assert (TraceID_String t1 = TraceID_String t2 -> t1 = t2) as Hinj.
  { intros H. pose proof (f_equal String.length H) as L.
    rewrite !Hlen in L. unfold TraceID_String, SpanID_String in H.
    destruct t1 as [h1 l1], t2 as [h2 l2]. simpl in *.
    destruct (h1 =? 0) eqn:E1, (h2 =? 0) eqn:E2; try discriminate L.
    - apply Z.eqb_eq in E1, E2. subst h1 h2.
      rewrite <- (append_nil_r (Sprintf_016x l1)) in H.
      rewrite <- (append_nil_r (Sprintf_016x l2)) in H.
      apply Sprintf_016x_inj in H; try assumption; try reflexivity.
      destruct H as [-> _]. reflexivity.
    - apply Sprintf_016x_inj in H; try assumption;
        [|now rewrite !Sprintf_016x_length].
      destruct H as [-> H].
      rewrite <- (append_nil_r (Sprintf_016x l1)) in H.
      rewrite <- (append_nil_r (Sprintf_016x l2)) in H.
      apply Sprintf_016x_inj in H; try assumption; try reflexivity.
      destruct H as [-> _]. reflexivity. }
  split; [apply Hlen|]. split; [|exact Hinj].
  unfold TraceID_IsValid. destruct t1 as [h1 l1]. simpl in *.
  split.
  - intros H.
    pose proof (f_equal String.length H) as L. rewrite Hlen in L.
    simpl in L. unfold TraceID_String, SpanID_String in H. simpl in H.
    destruct (h1 =? 0) eqn:E1; [|discriminate L].
    apply Z.eqb_eq in E1. subst h1.
    change "0000000000000000"%string with (Sprintf_016x 0) in H.
    rewrite <- (append_nil_r (Sprintf_016x l1)) in H.
    rewrite <- (append_nil_r (Sprintf_016x 0)) in H.
    assert (uint64_range 0) as H0 by (unfold uint64_range; lia).
    destruct (Sprintf_016x_inj l1 0 "" "" Hl1 H0 eq_refl H) as [-> _].
    reflexivity.
  - intros H. apply orb_false_iff in H. destruct H as [Hh Hl].
    apply negb_false_iff in Hh, Hl. apply Z.eqb_eq in Hh, Hl.
    subst h1 l1. reflexivity.
Qed.

Lemma TraceID_String_identifies_witness :
  String.length (TraceID_String (mkTraceID 0 255))
  = (if High (mkTraceID 0 255) =? 0 then 16%nat else 32%nat)
  /\ (TraceID_String (mkTraceID 0 255) = "0000000000000000"
      <-> TraceID_IsValid (mkTraceID 0 255) = false)
  /\ (TraceID_String (mkTraceID 0 255) = TraceID_String (mkTraceID 1 255)
      -> mkTraceID 0 255 = mkTraceID 1 255).
Proof.
  apply (TraceID_String_identifies (mkTraceID 0 255) (mkTraceID 1 255));
    unfold uint64_range; simpl; lia.
Defined.

End ModelTextFacts.

Section DeploymentFacts.
Import deployment.

Ltac members :=
  repeat (rewrite elem_of_app || rewrite elem_of_cons
          || rewrite elem_of_nil).

Lemma NoDup_add_last (l : list string) (x : string) :
  NoDup l -> x ∉ l -> NoDup (l ++ [x]).
Proof.
  intros Hl Hx. apply NoDup_app. split; [exact Hl|].
  split; [|apply NoDup_singleton].
  intros y Hy Hin. apply elem_of_cons in Hin.
  destruct Hin as [->|Hin]; [tauto|inversion Hin].
Qed.

Lemma strategyManifests_known (s : Strategy) :
  (s = AllInOne \/ s = Production \/ s = Streaming) ->
  exists manifests,
    strategyManifests s = Some manifests
    /\ NoDup manifests
    /\ "Service: jaeger-query" ∈ manifests
    /\ ("Ingress: jaeger-query" ∉ manifests)
    /\ ("HorizontalPodAutoscaler: jaeger-collector" ∉ manifests).
Proof.
  intros [H|[H|H]]; subst s; eexists; (split; [reflexivity|]);
    repeat split; compute_done.
Qed.

(** X23.  A specification that passes [Validate] always has a plan: [Plan]
    returns no error, lists no manifest twice, always contains the query
    service, and contains the ingress and the autoscaler exactly when they
    are enabled. *)
Theorem validated_spec_has_a_plan (d : DeploymentSpec)
    (Hvalid : Validate d = None) :
  exists manifests,
    Plan d = inl manifests
    /\ NoDup manifests
    /\ "Service: jaeger-query" ∈ manifests
    /\ ("Ingress: jaeger-query" ∈ manifests <-> Enabled (Ingress d) = true)
    /\ ("HorizontalPodAutoscaler: jaeger-collector" ∈ manifests
        <-> autoscaled d = true).
Proof.
  unfold Validate in Hvalid.
  destruct (String.eqb (Name d) ""); [discriminate|].
  assert (DeploymentStrategy d = AllInOne
          \/ DeploymentStrategy d = Production
          \/ DeploymentStrategy d = Streaming) as Hknown.
  { destruct (String.eqb_spec (DeploymentStrategy d) AllInOne) as [E|_];
      [now left|].
    destruct (String.eqb_spec (DeploymentStrategy d) Production) as [E|_];
      [now right; left|].
    destruct (String.eqb_spec (DeploymentStrategy d) Streaming) as [E|_];
      [now right; right|].
    discriminate Hvalid. }
  clear Hvalid.
  destruct (strategyManifests_known _ Hknown)
    as (base & Hbase & Hnodup & Hquery & Hingress & Hhpa).
  unfold Plan, autoscaled. rewrite Hbase.
  destruct (Enabled (Ingress d)) eqn:Ei;
    destruct (Autoscale (Collector d)) as [autoscale|];
    try destruct (AutoscaleEnabled autoscale) eqn:Ea;
    eexists; (split; [reflexivity|]);
    repeat split; members; try tauto; try (intros; discriminate);
    try (intros [?|?]; tauto || discriminate);
    try (intros [[?|?]|?]; tauto || discriminate).
  all: try (intros [?|[?|[]]]; [tauto|discriminate]).
  all: repeat (apply NoDup_add_last); try assumption.
  all: members; intros [?|[?|[]]]; [tauto|discriminate].
Qed.

Lemma validated_spec_has_a_plan_witness :
  exists manifests,
    Plan devSpec = inl manifests
    /\ NoDup manifests
    /\ "Service: jaeger-query" ∈ manifests
    /\ ("Ingress: jaeger-query" ∈ manifests
        <-> Enabled (Ingress devSpec) = true)
    /\ ("HorizontalPodAutoscaler: jaeger-collector" ∈ manifests
        <-> autoscaled devSpec = true).
Proof. apply (validated_spec_has_a_plan devSpec). reflexivity. Defined.

End DeploymentFacts.
